(** * The datastore websocket handler of jupyterlab/datastore/handler.py

    A shallow embedding of [DatastoreHandler] and of the reply builders
    next to it, followed by the properties of the collaboration protocol
    that the handler implements: sequence ids, append order, broadcast,
    dropped envelopes, disconnects and key isolation.

    Python objects are kept in an explicit store: the three class-level
    dictionaries, a heap of handler instances and a heap of
    [DatastoreDB] instances, so that two handlers of one key alias the
    same log.  A raised exception keeps the mutations made before it. *)

From stdpp Require Import base gmap list strings sorting pretty.

Open Scope Z_scope.

(** ** JSON values, as [json.loads] returns them *)

#[warnings="-register-all"]
Inductive json : Type :=
  | JNull
  | JBool (b : bool)
  | JInt (z : Z)
  | JFloat (bits : N)   (* an IEEE-754 binary64 bit pattern *)
  | JStr (s : string)
  | JArr (l : list json)
  | JObj (d : gmap string json).

(** ** Exceptions and the handler monad *)

Inductive exn : Type :=
  | AttributeError
  | KeyError
  | ValueError
  | TypeError
  | JSONDecodeError
  | WebSocketClosedError.

Inductive result (A : Type) : Type :=
  | Ok (a : A)
  | Raise (e : exn).
Arguments Ok {A} a.
Arguments Raise {A} e.

(** [store_key] is the [str] taken from the URL, or the [uuid.UUID]
    object that [open] draws when no key is given.  The two never
    compare equal as dictionary keys. *)
Inductive key : Type :=
  | KStr (s : string)
  | KUuid (u : N).

#[global] Instance key_eq_dec : EqDecision key.
Proof. solve_decision. Defined.

#[global] Instance key_countable : Countable key.
Proof.
  refine (inj_countable'
            (λ k, match k with KStr s => inl s | KUuid u => inr u end)
            (λ x, match x with inl s => KStr s | inr u => KUuid u end) _).
  by intros [].
Defined.

(** Modelled from the spec: [DatastoreDB] of jupyterlab/datastore/db.py,
    the transaction log.  The spec gives its interface only: an
    append-only store of transactions keyed by transaction id, with
    [append(transactions: Transaction[])], [history()] returning every
    transaction ever appended, in order, and [getByIds(ids: string[])]
    returning the found records in lookup order, missing ids omitted. *)
Record DatastoreDB : Type := { log : list json }.

(** A handler instance: the attributes [on_message], [open] and
    [on_close] read.  [store_key = None] is an attribute not yet set;
    [db = None] is Python's [None], which [initialize] stores.
    [ws_connection] tells whether tornado's connection of this handler
    still accepts writes: [write_message] raises
    [WebSocketClosedError] when it does not. *)
Record Handler : Type := {
  store_key : option key;
  db : option nat;
  ws_connection : bool
}.

(** The process: the class attributes of [DatastoreHandler], the two
    heaps, every message written to a websocket so far (receiver first),
    and the number of values drawn from [uuid.uuid4]. *)
Record World : Type := {
  store_ids : gmap key Z;
  stores : gmap key nat;
  handlers : gmap key (list nat);
  dbs : list DatastoreDB;
  objs : list Handler;
  sent : list (nat * string);
  drawn : nat
}.

Definition M (A : Type) : Type := World → result A * World.

#[global] Instance M_ret : MRet M := λ A a w, (Ok a, w).
#[global] Instance M_bind : MBind M := λ A B f m w,
  match m w with
  | (Ok a, w') => f a w'
  | (Raise e, w') => (Raise e, w')
  end.

Definition raise {A} (e : exn) : M A := λ w, (Raise e, w).
Definition gets {A} (f : World → A) : M A := λ w, (Ok (f w), w).
Definition modify (f : World → World) : M unit := λ w, (Ok tt, f w).

Definition from_opt {A} (e : exn) (o : option A) : M A :=
  match o with Some a => mret a | None => raise e end.

Fixpoint for_each {A} (body : A → M unit) (l : list A) : M unit :=
  match l with
  | [] => mret tt
  | x :: l' => body x;; for_each body l'
  end.

Fixpoint map_each {A B} (f : A → M B) (l : list A) : M (list B) :=
  match l with
  | [] => mret []
  | x :: l' => y ← f x; ys ← map_each f l'; mret (y :: ys)
  end.

(** ** Field updates *)

Definition with_store_ids (f : gmap key Z → gmap key Z) (w : World) : World :=
  {| store_ids := f (store_ids w); stores := stores w; handlers := handlers w;
     dbs := dbs w; objs := objs w; sent := sent w; drawn := drawn w |}.

Definition with_stores (f : gmap key nat → gmap key nat) (w : World) : World :=
  {| store_ids := store_ids w; stores := f (stores w); handlers := handlers w;
     dbs := dbs w; objs := objs w; sent := sent w; drawn := drawn w |}.

Definition with_handlers (f : gmap key (list nat) → gmap key (list nat))
    (w : World) : World :=
  {| store_ids := store_ids w; stores := stores w; handlers := f (handlers w);
     dbs := dbs w; objs := objs w; sent := sent w; drawn := drawn w |}.

Definition with_dbs (f : list DatastoreDB → list DatastoreDB) (w : World) : World :=
  {| store_ids := store_ids w; stores := stores w; handlers := handlers w;
     dbs := f (dbs w); objs := objs w; sent := sent w; drawn := drawn w |}.

Definition with_objs (f : list Handler → list Handler) (w : World) : World :=
  {| store_ids := store_ids w; stores := stores w; handlers := handlers w;
     dbs := dbs w; objs := f (objs w); sent := sent w; drawn := drawn w |}.

Definition with_sent (f : list (nat * string) → list (nat * string))
    (w : World) : World :=
  {| store_ids := store_ids w; stores := stores w; handlers := handlers w;
     dbs := dbs w; objs := objs w; sent := f (sent w); drawn := drawn w |}.

Definition with_drawn (f : nat → nat) (w : World) : World :=
  {| store_ids := store_ids w; stores := stores w; handlers := handlers w;
     dbs := dbs w; objs := objs w; sent := sent w; drawn := f (drawn w) |}.

Definition set_store_key (k : key) (o : Handler) : Handler :=
  {| store_key := Some k; db := db o; ws_connection := ws_connection o |}.

Definition set_db (r : option nat) (o : Handler) : Handler :=
  {| store_key := store_key o; db := r; ws_connection := ws_connection o |}.

Definition set_ws_connection (b : bool) (o : Handler) : Handler :=
  {| store_key := store_key o; db := db o; ws_connection := b |}.

(** ** The libraries the handler calls

    [json.loads], [json.dumps], [uuid.uuid4] and [str] of a UUID are
    not part of the repository; the development is parametric in them.
    [json_loads] is [None] where Python raises [JSONDecodeError];
    [uuid4 n] is the [n]-th value the generator hands out. *)
Class Runtime : Type := {
  json_loads : string → option json;
  json_dumps : json → string;
  uuid4 : nat → N;
  uuid_str : N → string
}.

(** ** The transaction log *)

(** Modelled from the spec: [DatastoreDB.add_transactions], which
    appends all the transactions to the log, in list order. *)
Definition add_transactions (transactions : list json) (d : DatastoreDB)
    : DatastoreDB :=
  {| log := log d ++ transactions |}.

(** Modelled from the spec: [DatastoreDB.history], the full ordered
    list of the transactions ever appended. *)
Definition history (d : DatastoreDB) : list json := log d.

(** Modelled from the spec: a transaction is an object with an [id]
    field, a string, by which the log is keyed. *)
Definition has_id (i : string) (t : json) : bool :=
  match t with
  | JObj f => match f !! "id" with
              | Some (JStr s) => bool_decide (s = i)
              | _ => false
              end
  | _ => false
  end.

(** Modelled from the spec: the point lookup by id of the log. *)
Definition get_by_id (d : DatastoreDB) (i : json) : option json :=
  match i with
  | JStr s => find (has_id s) (log d)
  | _ => None
  end.

(** Modelled from the spec: [DatastoreDB.get_transactions], which
    looks up each id and yields the found records in lookup order; an
    id that is missing is left out. *)
Definition get_transactions (ids : list json) (d : DatastoreDB) : list json :=
  omap (get_by_id d) ids.

Section handler.
Context `{RT : Runtime}.

(** ** Python primitives on JSON values *)

Definition py_dict (items : list (string * json)) : json :=
  JObj (list_to_map items).

(** [o.pop(k, dflt)]: the value and the object without the key.  A
    [list] has a [pop] of one argument, the other types have none. *)
Definition py_pop (o : json) (k : string) (dflt : json) : M (json * json) :=
  match o with
  | JObj d => mret (default dflt (d !! k), JObj (delete k d))
  | JArr _ => raise TypeError
  | _ => raise AttributeError
  end.

(** [t[k]] for a string [k]. *)
Definition py_getitem (t : json) (k : string) : M json :=
  match t with
  | JObj d => from_opt KeyError (d !! k)
  | _ => raise TypeError
  end.

(** [for x in j]: the items of a list, the characters of a string,
    the keys of a dictionary. *)
Definition py_iter (j : json) : M (list json) :=
  match j with
  | JArr l => mret l
  | JStr s => mret ((λ c, JStr (String c EmptyString)) <$> String.list_ascii_of_string s)
  | JObj d => mret ((λ kv, JStr kv.1) <$> map_to_list d)
  | _ => raise TypeError
  end.

(** [j == s] for a string literal [s]. *)
Definition py_eq_str (j : json) (s : string) : bool :=
  match j with
  | JStr t => bool_decide (t = s)
  | _ => false
  end.

(** [j is None]. *)
Definition is_none (j : json) : bool :=
  match j with JNull => true | _ => false end.

(** The log takes a list (the spec types its arguments
    [Transaction[]] and [string[]]); any other value is refused. *)
Definition as_list (j : json) : M (list json) :=
  match j with
  | JArr l => mret l
  | _ => raise TypeError
  end.

(** [uuid.uuid4()]: the next value of the generator. *)
Definition uuid_uuid4 : M N :=
  λ w, (Ok (uuid4 (drawn w)), with_drawn S w).

(** ** Reply envelopes (handler.py, lines 46-86) *)

Definition create_storeid_reply (parent_id : json) (store_id : Z) : M json :=
  u ← uuid_uuid4;
  mret (py_dict [("msgId", JStr (uuid_str u));
                 ("msgType", JStr "storeid-reply");
                 ("parentId", parent_id);
                 ("content", py_dict [("storeId", JInt store_id)])]).

Definition create_transactions_ack (parent_id : json) (transactions : json)
    : M json :=
  u ← uuid_uuid4;
  ts ← py_iter transactions;
  ids ← map_each (λ t, py_getitem t "id") ts;
  mret (py_dict [("msgId", JStr (uuid_str u));
                 ("msgType", JStr "transaction-ack");
                 ("parentId", parent_id);
                 ("content", py_dict [("transactionIds", JArr ids)])]).

Definition create_history_reply (parent_id : json) (transactions : list json)
    : M json :=
  u ← uuid_uuid4;
  mret (py_dict [("msgId", JStr (uuid_str u));
                 ("msgType", JStr "history-reply");
                 ("parentId", parent_id);
                 ("content",
                  py_dict [("history",
                            py_dict [("transactions", JArr transactions)])])]).

Definition create_fetch_reply (parent_id : json) (transactions : list json)
    : M json :=
  u ← uuid_uuid4;
  mret (py_dict [("msgId", JStr (uuid_str u));
                 ("msgType", JStr "fetch-transaction-reply");
                 ("parentId", parent_id);
                 ("content", py_dict [("transactions", JArr transactions)])]).

(** ** Attributes of [self] and objects on the heap

    A handler or log that is not on the heap cannot be named in Python;
    reading through such a reference raises here and writing does
    nothing, so that every function is total. *)

Definition self_store_key (self : nat) : M key :=
  o ← gets (λ w, objs w !! self) ≫= from_opt AttributeError;
  from_opt AttributeError (store_key o).

Definition self_db (self : nat) : M (option nat) :=
  o ← gets (λ w, objs w !! self) ≫= from_opt AttributeError;
  mret (db o).

Definition deref_db (r : option nat) : M DatastoreDB :=
  match r with
  | None => raise AttributeError
  | Some r => gets (λ w, dbs w !! r) ≫= from_opt AttributeError
  end.

Definition db_add_transactions (r : option nat) (transactions : json) : M unit :=
  d ← deref_db r;
  ts ← as_list transactions;
  modify (with_dbs (λ l, match r with
                         | Some r => <[r := add_transactions ts d]> l
                         | None => l
                         end)).

Definition db_history (r : option nat) : M (list json) :=
  d ← deref_db r;
  mret (history d).

Definition db_get_transactions (r : option nat) (ids : json) : M (list json) :=
  d ← deref_db r;
  l ← as_list ids;
  mret (get_transactions l d).

(** [handler.write_message(message)], of tornado's
    [WebSocketHandler]: the message goes on the wire of [handler], or
    [WebSocketClosedError] is raised when its connection is closed. *)
Definition write_message (handler : nat) (message : string) : M unit :=
  o ← gets (λ w, objs w !! handler) ≫= from_opt AttributeError;
  if ws_connection o
  then modify (with_sent (λ l, l ++ [(handler, message)]))
  else raise WebSocketClosedError.

(** ** DatastoreHandler (handler.py, lines 92-183)

    Calls to [self.log] are left out: they write to the server log and
    nothing else.  So are the calls to the base class at the end of
    [open] and [on_close], which touch none of the state below. *)

(** Lines 98-100.  [tornado] builds the handler object for an accepted
    connection and calls [initialize] on it, which sets [self.db] to
    [None]; the new object's reference is returned. *)
Definition initialize : M nat :=
  self ← gets (λ w, length (objs w));
  modify (with_objs (λ l, l ++ [{| store_key := None; db := None;
                                   ws_connection := true |}]));;
  mret self.

(** Lines 102-104. *)
Definition get_db_file : string := ":memory:".

(** Lines 106-108. *)
Definition create_store_id (self : nat) : M Z :=
  k ← self_store_key self;
  c ← gets (λ w, store_ids w !! k) ≫= from_opt KeyError;
  modify (with_store_ids (<[k := 1 + c]>));;
  gets (λ w, store_ids w !! k) ≫= from_opt KeyError.

(** [DatastoreDB(self.get_db_file())]: a new, empty log. *)
Definition new_DatastoreDB : M nat :=
  r ← gets (λ w, length (dbs w));
  modify (with_dbs (λ l, l ++ [{| log := [] |}]));;
  mret r.

(** Lines 110-131. *)
Definition open (self : nat) (store_key_arg : option string) : M unit :=
  k ← match store_key_arg with
      | Some s => mret (KStr s)
      | None => u ← uuid_uuid4; mret (KUuid u)
      end;
  modify (with_objs (alter (set_store_key k) self));;
  k ← self_store_key self;
  ids ← gets store_ids;
  (if ids !! k is None then modify (with_store_ids (<[k := 0]>)) else mret tt);;
  st ← gets stores;
  (if st !! k is None
   then r ← new_DatastoreDB; modify (with_stores (<[k := r]>))
   else mret tt);;
  r ← gets (λ w, stores w !! k) ≫= from_opt KeyError;
  modify (with_objs (alter (set_db (Some r)) self));;
  hs ← gets handlers;
  (if hs !! k is None then modify (with_handlers (<[k := []]>)) else mret tt);;
  l ← gets (λ w, handlers w !! k) ≫= from_opt KeyError;
  modify (with_handlers (<[k := l ++ [self]]>)).

(** [l.remove(x)]: drops the first occurrence, [ValueError] when there
    is none. *)
Fixpoint list_remove (x : nat) (l : list nat) : option (list nat) :=
  match l with
  | [] => None
  | y :: l' => if decide (y = x) then Some l' else (y ::.) <$> list_remove x l'
  end.

(** Lines 133-138.  [self.db.close()] is behind a test that
    [get_db_file] never passes. *)
Definition on_close (self : nat) : M unit :=
  (if decide (get_db_file ≠ ":memory:")
   then r ← self_db self; _ ← deref_db r; mret tt
   else mret tt);;
  k ← self_store_key self;
  l ← gets (λ w, handlers w !! k) ≫= from_opt KeyError;
  l' ← from_opt ValueError (list_remove self l);
  modify (with_handlers (<[k := l']>)).

(** Lines 140-144. *)
Definition broadcast (self : nat) (message : string) : M unit :=
  k ← self_store_key self;
  l ← gets (λ w, handlers w !! k) ≫= from_opt KeyError;
  for_each (λ handler,
              if decide (handler = self) then mret tt
              else write_message handler message) l.

(** Lines 146-183. *)
Definition on_message (self : nat) (message : string) : M unit :=
  msg ← from_opt JSONDecodeError (json_loads message);
  '(msg_type, msg) ← py_pop msg "msgType" JNull;
  '(msg_id, msg) ← py_pop msg "msgId" JNull;
  if py_eq_str msg_type "transaction-broadcast" then
    '(content, msg) ← py_pop msg "content" JNull;
    if is_none content then mret tt else
    '(transactions, content) ← py_pop content "transactions" (JArr []);
    r ← self_db self;
    db_add_transactions r transactions;;
    reply ← create_transactions_ack msg_id transactions;
    write_message self (json_dumps reply);;
    broadcast self message
  else if py_eq_str msg_type "storeid-request" then
    store_id ← create_store_id self;
    reply ← create_storeid_reply msg_id store_id;
    write_message self (json_dumps reply)
  else if py_eq_str msg_type "history-request" then
    r ← self_db self;
    transactions ← db_history r;
    reply ← create_history_reply msg_id transactions;
    write_message self (json_dumps reply)
  else if py_eq_str msg_type "fetch-transaction-request" then
    '(content, msg) ← py_pop msg "content" JNull;
    if is_none content then mret tt else
    '(transactionIds, content) ← py_pop content "transactionIds" (JArr []);
    r ← self_db self;
    transactions ← db_get_transactions r transactionIds;
    reply ← create_fetch_reply msg_id transactions;
    write_message self (json_dumps reply)
  else mret tt.

End handler.

(** ** The process as tornado drives it

    A connection is accepted and a handler built ([Connect]); [open]
    is called on it, once, with the key of the URL; messages arrive;
    the transport may go down ([Hangup], after which writes to the
    handler raise); [on_close] is called.  An exception raised by a
    callback is logged by tornado and the process goes on. *)

Inductive event : Type :=
  | Connect
  | Open (h : nat) (store_key_arg : option string)
  | Message (h : nat) (message : string)
  | Hangup (h : nat)
  | Close (h : nat).

Section process.
Context `{RT : Runtime}.

Definition unopened (w : World) (h : nat) : bool :=
  match objs w !! h with
  | Some o => if store_key o is None then true else false
  | None => false
  end.

Definition step (ev : event) : M unit :=
  match ev with
  | Connect => _ ← initialize; mret tt
  | Open h a => λ w, if unopened w h then open h a w else (Ok tt, w)
  | Message h m => on_message h m
  | Hangup h => modify (with_objs (alter (set_ws_connection false) h))
  | Close h => on_close h
  end.

Definition run (evs : list event) (w : World) : World :=
  foldl (λ w ev, (step ev w).2) w evs.

End process.

Definition boot : World :=
  {| store_ids := ∅; stores := ∅; handlers := ∅; dbs := []; objs := [];
     sent := []; drawn := 0 |}.

(** ** Vocabulary of the statements *)

(** What [msg.pop('msgType', None)] and [msg.pop('msgId', None)] give
    for a decoded envelope. *)
Definition env_type (env : gmap string json) : json :=
  default JNull (env !! "msgType").

Definition env_id (env : gmap string json) : json :=
  default JNull (env !! "msgId").

Definition store_key_of (w : World) (h : nat) : option key :=
  objs w !! h ≫= store_key.

Definition db_of (w : World) (h : nat) : option nat :=
  objs w !! h ≫= db.

(** The handler exists and its connection accepts writes. *)
Definition writable (w : World) (h : nat) : bool :=
  match objs w !! h with
  | Some o => ws_connection o
  | None => false
  end.

(** The log of a store key. *)
Definition log_of (w : World) (k : key) : option (list json) :=
  r ← stores w !! k; d ← dbs w !! r; Some (log d).

(** [t['id']] when it does not raise. *)
Definition tx_id (t : json) : option json :=
  match t with
  | JObj f => f !! "id"
  | _ => None
  end.

(** [[t['id'] for t in ts]] when it does not raise. *)
Fixpoint tx_ids (ts : list json) : option (list json) :=
  match ts with
  | [] => Some []
  | t :: ts' =>
      match tx_id t, tx_ids ts' with
      | Some i, Some ids => Some (i :: ids)
      | _, _ => None
      end
  end.

(** The sessions a broadcast by [self] goes to. *)
Definition peers (self : nat) (l : list nat) : list nat :=
  filter (λ p, p ≠ self) l.

Definition to_peers (message : string) (l : list nat) : list (nat * string) :=
  (λ p, (p, message)) <$> l.

(** The body of the loop of [broadcast]. *)
Definition deliver (self : nat) (message : string) (handler : nat) : M unit :=
  if decide (handler = self) then mret tt else write_message handler message.

(** Messages arriving one after the other, each on its handler. *)
Definition deliveries (reqs : list (nat * string)) : list event :=
  (λ q, Message q.1 q.2) <$> reqs.


Definition recognized (msg_type : json) : bool :=
  py_eq_str msg_type "transaction-broadcast"
  || py_eq_str msg_type "storeid-request"
  || py_eq_str msg_type "history-request"
  || py_eq_str msg_type "fetch-transaction-request".

(** The reply type the dispatcher pairs with each request type. *)
Definition reply_type (request_type : string) : option string :=
  if decide (request_type = "transaction-broadcast") then Some "transaction-ack"
  else if decide (request_type = "storeid-request") then Some "storeid-reply"
  else if decide (request_type = "history-request") then Some "history-reply"
  else if decide (request_type = "fetch-transaction-request")
  then Some "fetch-transaction-reply"
  else None.

(** A request envelope carries the content its type requires: a list
    of transactions, each with an [id], or a list of ids. *)
Definition well_formed (request_type : string) (env : gmap string json) : bool :=
  if decide (request_type = "transaction-broadcast") then
    match env !! "content" with
    | Some (JObj content) =>
        match content !! "transactions" with
        | Some (JArr ts) => bool_decide (is_Some (tx_ids ts))
        | _ => false
        end
    | _ => false
    end
  else if decide (request_type = "fetch-transaction-request") then
    match env !! "content" with
    | Some (JObj content) =>
        match content !! "transactionIds" with
        | Some (JArr _) => true
        | _ => false
        end
    | _ => false
    end
  else true.

(** The log [open] attaches to key [k]: the one the key has, or the
    next free reference. *)
Definition log_ref (k : key) (w : World) : nat :=
  default (length (dbs w)) (stores w !! k).

(** The world after [open] has bound handler [h] to key [k]. *)
Definition opened (h : nat) (k : key) (w : World) : World :=
  {| store_ids := if store_ids w !! k is Some _ then store_ids w
                  else <[k := 0]> (store_ids w);
     stores := if stores w !! k is Some _ then stores w
               else <[k := length (dbs w)]> (stores w);
     handlers := <[k := default [] (handlers w !! k) ++ [h]]> (handlers w);
     dbs := if stores w !! k is Some _ then dbs w
            else dbs w ++ [{| log := [] |}];
     objs := alter (set_db (Some (log_ref k w))) h
               (alter (set_store_key k) h (objs w));
     sent := sent w;
     drawn := drawn w |}.

(** The ids handed out by [n] allocations from counter value [c]. *)
Definition issued (c : Z) (n : nat) : list Z :=
  (λ i : nat, c + 1 + Z.of_nat i) <$> seq 0 n.

Section statements.
Context `{RT : Runtime}.

(** The shape the four reply builders share. *)
Definition reply_envelope (u : N) (msg_type : string) (parent_id content : json)
    : json :=
  py_dict [("msgId", JStr (uuid_str u)); ("msgType", JStr msg_type);
           ("parentId", parent_id); ("content", content)].

(** The ack of a [transaction-broadcast], as it goes on the wire. *)
Definition ack_of (env : gmap string json) (ids : list json) (w : World)
    : string :=
  json_dumps (reply_envelope (uuid4 (drawn w)) "transaction-ack" (env_id env)
                (py_dict [("transactionIds", JArr ids)])).

(** The world once the transactions are appended and the ack is
    written, before the broadcast starts. *)
Definition acked (self : nat) (env : gmap string json) (r : nat)
    (d : DatastoreDB) (ts ids : list json) (w : World) : World :=
  with_sent (.++ [(self, ack_of env ids w)])
    (with_drawn S (with_dbs (<[r := add_transactions ts d]>) w)).

(** The [history-reply] to request [env] that lists [transactions]. *)
Definition history_reply_of (env : gmap string json) (transactions : list json)
    (w : World) : string :=
  json_dumps (reply_envelope (uuid4 (drawn w)) "history-reply" (env_id env)
                (py_dict [("history",
                           py_dict [("transactions", JArr transactions)])])).

(** The [fetch-transaction-reply] to request [env] that lists
    [transactions]. *)
Definition fetch_reply_of (env : gmap string json) (transactions : list json)
    (w : World) : string :=
  json_dumps (reply_envelope (uuid4 (drawn w)) "fetch-transaction-reply"
                (env_id env) (py_dict [("transactions", JArr transactions)])).

(** The [msgId] of a message on the wire. *)
Definition request_id (message : string) : json :=
  match json_loads message with
  | Some (JObj env) => env_id env
  | _ => JNull
  end.

Definition is_storeid_request (message : string) : Prop :=
  ∃ env, json_loads message = Some (JObj env)
         ∧ env_type env = JStr "storeid-request".

(** The [storeid-reply] carrying [store_id], answering [message] with
    the [n]-th uuid. *)
Definition storeid_reply_of (n : nat) (store_id : Z) (message : string)
    : string :=
  json_dumps (reply_envelope (uuid4 n) "storeid-reply" (request_id message)
                (py_dict [("storeId", JInt store_id)])).

(** What the requests [reqs] are answered when the counter stands at
    [c] and [n] uuids have been drawn: the receiver, the id allocated
    (the [i]-th request gets [c + 1 + i]) and the reply on the wire. *)
Definition storeid_answers (n : nat) (c : Z) (reqs : list (nat * string))
    : list (nat * (Z * string)) :=
  imap (λ i q, (q.1, (c + 1 + Z.of_nat i,
                      storeid_reply_of (n + i)%nat (c + 1 + Z.of_nat i) q.2)))
       reqs.

(** The answers that reach their session: the write of the others
    raises. *)
Definition returned (w : World) (answers : list (nat * (Z * string)))
    : list (nat * (Z * string)) :=
  filter (λ a, writable w a.1 = true) answers.

End statements.

(** [preserves R m]: whatever [m] returns or raises, the world it
    leaves is related by [R] to the world it started in. *)
Definition preserves {A} (R : relation World) (m : M A) : Prop :=
  ∀ w, R w (m w).2.

(** [affects self w w']: the footprint of a message processed by
    [self].  Handlers and the registry stay as they are; counters only
    go up, and only the one of [self]'s key moves; logs only grow at
    the end, and only the one [self.db] points to moves; the wire only
    grows. *)
Record affects (self : nat) (w w' : World) : Prop := {
  a_objs : objs w' = objs w;
  a_stores : stores w' = stores w;
  a_handlers : handlers w' = handlers w;
  a_ids_other : ∀ k, store_key_of w self ≠ Some k →
                     store_ids w' !! k = store_ids w !! k;
  a_ids_up : ∀ k c, store_ids w !! k = Some c →
                    ∃ c', store_ids w' !! k = Some c' ∧ c ≤ c';
  a_dbs_other : ∀ r, db_of w self ≠ Some r → dbs w' !! r = dbs w !! r;
  a_dbs_grow : ∀ r d, dbs w !! r = Some d →
                      ∃ d', dbs w' !! r = Some d' ∧ log d `prefix_of` log d';
  a_dbs_length : length (dbs w') = length (dbs w);
  a_sent : sent w `prefix_of` sent w';
  a_drawn : (drawn w ≤ drawn w')%nat
}.

(** The invariant of the process.  Every bound handler has its
    counter, its log and its session list; [self.db] is the log of
    [self.store_key]; two keys never share a log; a session list holds
    handlers bound to its key, each once. *)
Record consistent (w : World) : Prop := {
  c_bound : ∀ h k, store_key_of w h = Some k →
      is_Some (store_ids w !! k) ∧ is_Some (handlers w !! k) ∧
      ∃ r, stores w !! k = Some r ∧ db_of w h = Some r;
  c_dbs : ∀ k r, stores w !! k = Some r → is_Some (dbs w !! r);
  c_inj : ∀ k1 k2 r, stores w !! k1 = Some r → stores w !! k2 = Some r → k1 = k2;
  c_reg : ∀ k l h, handlers w !! k = Some l → h ∈ l → store_key_of w h = Some k;
  c_nodup : ∀ k l, handlers w !! k = Some l → NoDup l
}.

(** What never goes back.  [grows w w']: counters only go up, a key
    keeps its log, logs only grow at the end, the wire only grows.
    Every callback is within it. *)
Record grows (w w' : World) : Prop := {
  g_ids : ∀ k c, store_ids w !! k = Some c →
                 ∃ c', store_ids w' !! k = Some c' ∧ c ≤ c';
  g_stores : ∀ k r, stores w !! k = Some r → stores w' !! k = Some r;
  g_dbs : ∀ r d, dbs w !! r = Some d →
                 ∃ d', dbs w' !! r = Some d' ∧ log d `prefix_of` log d';
  g_sent : sent w `prefix_of` sent w'
}.

(** ** A runtime and worlds to run the model on

    A stand-in for the libraries: the wire texts are short names and
    [json.loads] is a table from them to what they decode to;
    [json.dumps] prints objects with their keys in the order of the
    map; the uuids are numbered. *)

Definition dquote : string := String (Ascii.ascii_of_nat 34) EmptyString.

Fixpoint sample_dumps (fuel : nat) (j : json) : string :=
  match fuel with
  | O => "..."
  | S fuel =>
      match j with
      | JNull => "null"
      | JBool b => if b then "true" else "false"
      | JInt z => pretty z
      | JFloat bits => "float:" +:+ pretty bits
      | JStr s => dquote +:+ s +:+ dquote
      | JArr l => "[" +:+ String.concat ", " (sample_dumps fuel <$> l) +:+ "]"
      | JObj d =>
          "{" +:+ String.concat ", "
                    ((λ kv, dquote +:+ kv.1 +:+ dquote +:+ ": "
                            +:+ sample_dumps fuel kv.2) <$> map_to_list d)
          +:+ "}"
      end
  end.

Definition tx1 : json := py_dict [("id", JStr "tx1"); ("patch", JInt 7)].
Definition tx2 : json := py_dict [("id", JStr "tx2"); ("patch", JInt 8)].

Definition sample_wire : list (string * json) :=
  [("m1", py_dict [("msgType", JStr "storeid-request"); ("msgId", JStr "m1")]);
   ("m2", py_dict [("msgType", JStr "transaction-broadcast");
                   ("msgId", JStr "m2");
                   ("content", py_dict [("transactions", JArr [tx1; tx2])])]);
   ("m3", py_dict [("msgType", JStr "history-request"); ("msgId", JStr "m3")]);
   ("m4", py_dict [("msgType", JStr "transaction-broadcast");
                   ("msgId", JStr "m4"); ("content", py_dict [])]);
   ("m5", py_dict [("msgType", JStr "fetch-transaction-request");
                   ("msgId", JStr "m5");
                   ("content",
                    py_dict [("transactionIds", JArr [JStr "tx2"; JStr "tx9"])])]);
   ("m6", py_dict [("msgType", JStr "fetch-transaction-request");
                   ("msgId", JStr "m6"); ("content", py_dict [])]);
   ("m7", py_dict [("msgType", JStr "transaction-broadcast");
                   ("msgId", JStr "m7")]);
   ("m8", py_dict [("msgType", JStr "ping"); ("msgId", JStr "m8")])].

Definition sample_loads (message : string) : option json :=
  snd <$> find (λ p, bool_decide (p.1 = message)) sample_wire.

Definition sample : Runtime :=
  {| json_loads := sample_loads;
     json_dumps := sample_dumps 8;
     uuid4 := N.of_nat;
     uuid_str := λ u, "uuid-" +:+ pretty u |}.

(** What a wire text of the table decodes to. *)
Definition decoded (message : string) : gmap string json :=
  match sample_loads message with
  | Some (JObj env) => env
  | _ => ∅
  end.

(** Sessions 0 and 1 on key [doc1], session 2 on key [doc2]. *)
Definition two_keys : World :=
  run (RT := sample)
    [Connect; Connect; Connect;
     Open 0 (Some "doc1"); Open 1 (Some "doc1"); Open 2 (Some "doc2")] boot.

(** Sessions 0, 1 and 2 on key [doc1]; the connection of 1 went down
    and [on_close] has not run yet. *)
Definition one_down : World :=
  run (RT := sample)
    [Connect; Connect; Connect;
     Open 0 (Some "doc1"); Open 1 (Some "doc1"); Open 2 (Some "doc1");
     Hangup 1] boot.

(** Session 0 on key [doc1], opened and closed. *)
Definition closed_once : World :=
  run (RT := sample) [Connect; Open 0 (Some "doc1"); Close 0] boot.

(** ** Vocabulary of the further properties *)

(** A write [(q, m)] that a message [message] processed by [self] may
    make in world [w]: a write to [self], or the message itself to
    another session out of the list of [self]'s key. *)
Definition allowed (self : nat) (message : string) (w : World)
    (qm : nat * string) : Prop :=
  qm.1 = self
  ∨ (qm.2 = message ∧ qm.1 ≠ self
     ∧ ∃ k l, store_key_of w self = Some k ∧ handlers w !! k = Some l
              ∧ qm.1 ∈ l).

(** [emits self message w w']: what a message processed by [self]
    puts on the wire and where its counters come from.  Handlers and
    session lists stay as they are, every new write is [allowed], and
    a counter of [w'] is a counter of [w] that went up or stayed. *)
Record emits (self : nat) (message : string) (w w' : World) : Prop := {
  e_objs : objs w' = objs w;
  e_handlers : handlers w' = handlers w;
  e_sent : ∃ out, sent w' = sent w ++ out
                  ∧ Forall (allowed self message w) out;
  e_ids : ∀ k c', store_ids w' !! k = Some c' →
                  ∃ c, store_ids w !! k = Some c ∧ c ≤ c'
}.

(** No counter is negative. *)
Definition counters_nonneg (w : World) : Prop :=
  ∀ k c, store_ids w !! k = Some c → 0 ≤ c.

(** [fixes f w w']: the part [f] of the world is the same in [w'] as
    in [w]. *)
Definition fixes {A} (f : World → A) (w w' : World) : Prop := f w' = f w.

(** ** More worlds to run the model on *)

(** The events of [two_keys] and one more connection: handler 3 is
    built and not opened. *)
Definition newcomer : World :=
  run (RT := sample)
    [Connect; Connect; Connect;
     Open 0 (Some "doc1"); Open 1 (Some "doc1"); Open 2 (Some "doc2");
     Connect] boot.

(** [two_keys] after session 0 appended [tx1; tx2] and took a store
    id, and one more connection: handler 3 is built and not opened. *)
Definition busy : World :=
  run (RT := sample) [Message 0 "m2"; Message 0 "m1"; Connect] two_keys.

(** * Proofs *)

(** ** Reasoning about the monad *)

Lemma bind_unfold {A B} (m : M A) (f : A → M B) (w : World) :
  (m ≫= f) w = match m w with
               | (Ok a, w') => f a w'
               | (Raise e, w') => (Raise e, w')
               end.
Proof. reflexivity. Qed.

Lemma bind_ok {A B} (m : M A) (f : A → M B) (w w' : World) (a : A) :
  m w = (Ok a, w') → (m ≫= f) w = f a w'.
Proof. intros H. by rewrite bind_unfold, H. Qed.

Lemma bind_raise {A B} (m : M A) (f : A → M B) (w w' : World) (e : exn) :
  m w = (Raise e, w') → (m ≫= f) w = (Raise e, w').
Proof. intros H. by rewrite bind_unfold, H. Qed.

Section preserves.
Context (R : relation World) `{!PreOrder R}.

Lemma preserves_ret {A} (a : A) : preserves R (mret a).
Proof. intros w. simpl. reflexivity. Qed.

Lemma preserves_raise {A} (e : exn) : preserves R (raise e : M A).
Proof. intros w. simpl. reflexivity. Qed.

Lemma preserves_gets {A} (f : World → A) : preserves R (gets f).
Proof. intros w. simpl. reflexivity. Qed.

Lemma preserves_from_opt {A} (e : exn) (o : option A) :
  preserves R (from_opt e o).
Proof. destruct o; [apply preserves_ret | apply preserves_raise]. Qed.

Lemma preserves_modify (f : World → World) :
  (∀ w, R w (f w)) → preserves R (modify f).
Proof. intros H w. apply H. Qed.

Lemma preserves_bind {A B} (m : M A) (f : A → M B) :
  preserves R m → (∀ a, preserves R (f a)) → preserves R (m ≫= f).
Proof.
  intros Hm Hf w. rewrite bind_unfold.
  specialize (Hm w). destruct (m w) as [[a|e] w']; simpl in *; [|done].
  etrans; [exact Hm | apply Hf].
Qed.

Lemma preserves_for_each {A} (body : A → M unit) (l : list A) :
  (∀ x, preserves R (body x)) → preserves R (for_each body l).
Proof.
  intros Hb. induction l as [|x l IH]; simpl.
  - apply preserves_ret.
  - apply preserves_bind; [apply Hb | intros _; apply IH].
Qed.

Lemma preserves_map_each {A B} (f : A → M B) (l : list A) :
  (∀ x, preserves R (f x)) → preserves R (map_each f l).
Proof.
  intros Hf. induction l as [|x l IH]; simpl.
  - apply preserves_ret.
  - apply preserves_bind; [apply Hf | intros y].
    apply preserves_bind; [apply IH | intros ys; apply preserves_ret].
Qed.

End preserves.

Ltac mred :=
  repeat first
    [ rewrite bind_unfold
    | progress unfold gets, modify, raise
    | progress simpl ].

(** ** What each primitive does *)

Section primitives.
Context `{RT : Runtime}.

Lemma store_key_of_Some w h k :
  store_key_of w h = Some k ↔ ∃ o, objs w !! h = Some o ∧ store_key o = Some k.
Proof.
  unfold store_key_of. destruct (objs w !! h) as [o|]; simpl.
  - split; [eauto | by intros (? & [= <-] & ?)].
  - split; [done | by intros (? & ? & ?)].
Qed.

Lemma db_of_Some w h r :
  db_of w h = Some r ↔ ∃ o, objs w !! h = Some o ∧ db o = Some r.
Proof.
  unfold db_of. destruct (objs w !! h) as [o|]; simpl.
  - split; [eauto | by intros (? & [= <-] & ?)].
  - split; [done | by intros (? & ? & ?)].
Qed.

Lemma py_pop_obj d k dflt w :
  py_pop (JObj d) k dflt w = (Ok (default dflt (d !! k), JObj (delete k d)), w).
Proof. reflexivity. Qed.

Lemma self_store_key_eq w self k :
  store_key_of w self = Some k → self_store_key self w = (Ok k, w).
Proof.
  intros (o & Ho & Hk)%store_key_of_Some. unfold self_store_key.
  mred. rewrite Ho. mred. by rewrite Hk.
Qed.

Lemma self_store_key_unset w self :
  store_key_of w self = None → self_store_key self w = (Raise AttributeError, w).
Proof.
  unfold store_key_of, self_store_key. mred.
  destruct (objs w !! self) as [o|]; mred; [|done]. by intros ->.
Qed.

Lemma self_db_eq w self o :
  objs w !! self = Some o → self_db self w = (Ok (db o), w).
Proof. intros Ho. unfold self_db. mred. by rewrite Ho. Qed.

Lemma deref_db_eq w r d :
  dbs w !! r = Some d → deref_db (Some r) w = (Ok d, w).
Proof. intros Hd. unfold deref_db. mred. by rewrite Hd. Qed.

Lemma write_message_ok w h message :
  writable w h = true →
  write_message h message w = (Ok tt, with_sent (.++ [(h, message)]) w).
Proof.
  unfold writable, write_message. mred.
  destruct (objs w !! h) as [o|]; mred; [|done]. by intros ->.
Qed.

Lemma write_message_closed w h o message :
  objs w !! h = Some o → ws_connection o = false →
  write_message h message w = (Raise WebSocketClosedError, w).
Proof. intros Ho Hc. unfold write_message. mred. rewrite Ho. mred. by rewrite Hc. Qed.

Lemma create_store_id_eq w self k c :
  store_key_of w self = Some k → store_ids w !! k = Some c →
  create_store_id self w = (Ok (1 + c), with_store_ids (<[k := 1 + c]>) w).
Proof.
  intros Hk Hc. unfold create_store_id.
  rewrite (bind_ok _ _ _ _ _ (self_store_key_eq _ _ _ Hk)).
  mred. rewrite Hc. mred. by rewrite lookup_insert_eq.
Qed.

Lemma map_each_ids ts ids w :
  tx_ids ts = Some ids →
  map_each (λ t, py_getitem t "id") ts w = (Ok ids, w).
Proof.
  revert ids. induction ts as [|t ts IH]; intros ids Hids; simpl in Hids.
  - by injection Hids as <-.
  - destruct (tx_id t) as [i|] eqn:Hi; [|done].
    destruct (tx_ids ts) as [ids'|]; [|done]. injection Hids as <-.
    destruct t; try done. simpl in Hi. mred. rewrite Hi. mred.
    by rewrite (IH ids').
Qed.

End primitives.


(** ** Writing to the peers *)

Lemma with_sent_nil w : with_sent (.++ []) w = w.
Proof. destruct w. unfold with_sent. simpl. by rewrite app_nil_r. Qed.

Lemma with_sent_app a b w :
  with_sent (.++ a) (with_sent (.++ b) w) = with_sent (.++ (b ++ a)) w.
Proof. unfold with_sent. simpl. by rewrite (assoc_L (++)). Qed.

Lemma peers_spec self l p : p ∈ peers self l ↔ p ∈ l ∧ p ≠ self.
Proof. unfold peers. rewrite list_elem_of_filter. tauto. Qed.


Section broadcast.
Context `{RT : Runtime}.

Lemma broadcast_unfold self message w k l :
  store_key_of w self = Some k → handlers w !! k = Some l →
  broadcast self message w = for_each (deliver self message) l w.
Proof.
  intros Hk Hl. unfold broadcast.
  rewrite (bind_ok _ _ _ _ _ (self_store_key_eq _ _ _ Hk)).
  mred. rewrite Hl. reflexivity.
Qed.

Lemma for_each_app {A} (body : A → M unit) (l1 l2 : list A) (w : World) :
  for_each body (l1 ++ l2) w = (for_each body l1;; for_each body l2) w.
Proof.
  revert w. induction l1 as [|x l1 IH]; intros w; [reflexivity|].
  simpl. rewrite !bind_unfold. destruct (body x w) as [[[]|e] w']; [|done].
  by rewrite IH.
Qed.

Lemma deliver_all self message l w :
  (∀ p, p ∈ l → p ≠ self → writable w p = true) →
  for_each (deliver self message) l w
  = (Ok tt, with_sent (.++ to_peers message (peers self l)) w).
Proof.
  revert w. induction l as [|x l IH]; intros w Hw; simpl.
  - by rewrite with_sent_nil.
  - rewrite bind_unfold. unfold deliver at 1, peers.
    destruct (decide (x = self)) as [->|Hx].
    + rewrite filter_cons_False by naive_solver. simpl.
      apply IH. intros p ?. apply Hw. by right.
    + rewrite filter_cons_True by done.
      rewrite write_message_ok by (apply Hw; [left|done]).
      rewrite IH; [by rewrite with_sent_app|].
      intros p ??. change (writable w p = true). apply Hw; [by right|done].
Qed.

Lemma deliver_stops self message l1 p l2 w o :
  (∀ q, q ∈ l1 → q ≠ self → writable w q = true) →
  p ≠ self → objs w !! p = Some o → ws_connection o = false →
  for_each (deliver self message) (l1 ++ p :: l2) w
  = (Raise WebSocketClosedError,
     with_sent (.++ to_peers message (peers self l1)) w).
Proof.
  intros Hw Hp Ho Hc. rewrite for_each_app, bind_unfold, deliver_all by done.
  simpl. rewrite bind_unfold. unfold deliver at 1.
  rewrite decide_False by done.
  by rewrite (write_message_closed _ _ o).
Qed.

(** Whatever happens, a broadcast writes the original message and
    nothing else, never to the sender, and touches nothing but the
    wire. *)
Lemma deliver_some self message l w :
  ∃ l', l' `prefix_of` peers self l ∧
    (for_each (deliver self message) l w).2
    = with_sent (.++ to_peers message l') w.
Proof.
  revert w. induction l as [|x l IH]; intros w; simpl.
  - exists []. by rewrite with_sent_nil.
  - rewrite bind_unfold. unfold deliver at 1, peers.
    destruct (decide (x = self)) as [->|Hx].
    + rewrite filter_cons_False by naive_solver. apply IH.
    + rewrite filter_cons_True by done. unfold write_message. mred.
      destruct (objs w !! x) as [o|]; mred;
        [|exists []; split; [apply prefix_nil | by rewrite with_sent_nil]].
      destruct (ws_connection o); mred;
        [|exists []; split; [apply prefix_nil | by rewrite with_sent_nil]].
      destruct (IH (with_sent (.++ [(x, message)]) w)) as (l' & Hl' & ->).
      exists (x :: l'). split; [by apply prefix_cons|].
      by rewrite with_sent_app.
Qed.

End broadcast.


(** ** What [on_message] does, branch by branch *)

Section branches.
Context `{RT : Runtime}.

Implicit Types (w : World) (env content : gmap string json).

Lemma env_id_pop env : default JNull (delete "msgType" env !! "msgId") = env_id env.
Proof. unfold env_id. by rewrite lookup_delete_ne. Qed.

Lemma content_pop env :
  delete "msgId" (delete "msgType" env) !! "content" = env !! "content".
Proof. by rewrite !lookup_delete_ne. Qed.

Ltac enter_branch env Hl Ht :=
  unfold on_message; rewrite bind_unfold, Hl; cbn [from_opt mret M_ret];
  do 2 (rewrite bind_unfold; cbn [py_pop mret M_ret]);
  rewrite ?env_id_pop; fold (env_type env); rewrite Ht.

Lemma on_message_unknown self message env w :
  json_loads message = Some (JObj env) →
  recognized (env_type env) = false →
  on_message self message w = (Ok tt, w).
Proof.
  intros Hl Hr. unfold on_message. rewrite bind_unfold, Hl. cbn [from_opt mret M_ret].
  do 2 (rewrite bind_unfold; cbn [py_pop mret M_ret]). fold (env_type env).
  unfold recognized in Hr.
  repeat (apply orb_false_elim in Hr as [Hr ?]).
  by repeat case_match.
Qed.

Lemma on_message_no_content self message env rt w :
  json_loads message = Some (JObj env) →
  env_type env = JStr rt →
  rt = "transaction-broadcast" ∨ rt = "fetch-transaction-request" →
  default JNull (env !! "content") = JNull →
  on_message self message w = (Ok tt, w).
Proof.
  intros Hl Ht Hrt Hc. enter_branch env Hl Ht.
  destruct Hrt as [-> | ->]; simpl;
    rewrite bind_unfold; cbn [py_pop mret M_ret]; rewrite content_pop, Hc; done.
Qed.

Lemma on_message_storeid self message env w k c :
  json_loads message = Some (JObj env) →
  env_type env = JStr "storeid-request" →
  store_key_of w self = Some k → writable w self = true →
  store_ids w !! k = Some c →
  on_message self message w =
  (Ok tt,
   with_sent (.++ [(self, json_dumps (reply_envelope (uuid4 (drawn w))
                     "storeid-reply" (env_id env)
                     (py_dict [("storeId", JInt (1 + c))])))])
     (with_drawn S (with_store_ids (<[k := 1 + c]>) w))).
Proof.
  intros Hl Ht Hk Hw Hc. enter_branch env Hl Ht. simpl.
  rewrite (bind_ok _ _ _ _ _ (create_store_id_eq _ _ _ _ Hk Hc)).
  unfold create_storeid_reply, uuid_uuid4. rewrite !bind_unfold. simpl.
  by rewrite write_message_ok.
Qed.

Lemma on_message_storeid_any self message env w k c :
  json_loads message = Some (JObj env) →
  env_type env = JStr "storeid-request" →
  store_key_of w self = Some k → store_ids w !! k = Some c →
  (on_message self message w).2
  = (if writable w self
     then with_sent (.++ [(self, storeid_reply_of (drawn w) (1 + c) message)])
     else id)
      (with_drawn S (with_store_ids (<[k := 1 + c]>) w)).
Proof.
  intros Hl Ht Hk Hc. destruct (writable w self) eqn:Hw.
  - rewrite (on_message_storeid _ _ env _ k c) by done.
    unfold storeid_reply_of, request_id. by rewrite Hl.
  - apply store_key_of_Some in Hk as Hk'. destruct Hk' as (o & Ho & _).
    unfold writable in Hw. rewrite Ho in Hw.
    enter_branch env Hl Ht. simpl.
    rewrite (bind_ok _ _ _ _ _ (create_store_id_eq _ _ _ _ Hk Hc)).
    unfold create_storeid_reply, uuid_uuid4. rewrite !bind_unfold. simpl.
    by rewrite (write_message_closed _ _ o).
Qed.

Lemma on_message_history self message env w r d :
  json_loads message = Some (JObj env) →
  env_type env = JStr "history-request" →
  db_of w self = Some r → dbs w !! r = Some d → writable w self = true →
  on_message self message w =
  (Ok tt,
   with_sent (.++ [(self, json_dumps (reply_envelope (uuid4 (drawn w))
                     "history-reply" (env_id env)
                     (py_dict [("history",
                                py_dict [("transactions", JArr (history d))])])))])
     (with_drawn S w)).
Proof.
  intros Hl Ht (o & Ho & Hr)%db_of_Some Hd Hw. enter_branch env Hl Ht. simpl.
  rewrite (bind_ok _ _ _ _ _ (self_db_eq _ _ _ Ho)), Hr.
  unfold db_history. rewrite !bind_unfold, (deref_db_eq _ _ _ Hd). simpl.
  unfold create_history_reply, uuid_uuid4. rewrite !bind_unfold. simpl.
  by rewrite write_message_ok.
Qed.

Lemma on_message_fetch self message env content ids w r d :
  json_loads message = Some (JObj env) →
  env_type env = JStr "fetch-transaction-request" →
  env !! "content" = Some (JObj content) →
  default (JArr []) (content !! "transactionIds") = JArr ids →
  db_of w self = Some r → dbs w !! r = Some d → writable w self = true →
  on_message self message w =
  (Ok tt,
   with_sent (.++ [(self, json_dumps (reply_envelope (uuid4 (drawn w))
                     "fetch-transaction-reply" (env_id env)
                     (py_dict [("transactions",
                                JArr (get_transactions ids d))])))])
     (with_drawn S w)).
Proof.
  intros Hl Ht Hc Hids (o & Ho & Hr)%db_of_Some Hd Hw. enter_branch env Hl Ht. simpl.
  rewrite bind_unfold; cbn [py_pop mret M_ret]; rewrite content_pop, Hc. simpl.
  rewrite bind_unfold; cbn [py_pop mret M_ret]; rewrite Hids.
  rewrite (bind_ok _ _ _ _ _ (self_db_eq _ _ _ Ho)), Hr.
  unfold db_get_transactions. rewrite !bind_unfold, (deref_db_eq _ _ _ Hd). simpl.
  unfold create_fetch_reply, uuid_uuid4. rewrite !bind_unfold. simpl.
  by rewrite write_message_ok.
Qed.

Lemma on_message_transactions self message env content ts ids w k r d l :
  json_loads message = Some (JObj env) →
  env_type env = JStr "transaction-broadcast" →
  env !! "content" = Some (JObj content) →
  default (JArr []) (content !! "transactions") = JArr ts →
  tx_ids ts = Some ids →
  store_key_of w self = Some k → handlers w !! k = Some l →
  db_of w self = Some r → dbs w !! r = Some d → writable w self = true →
  on_message self message w
  = for_each (deliver self message) l (acked self env r d ts ids w).
Proof.
  intros Hl Ht Hc Hts Hids Hk Hh (o & Ho & Hr)%db_of_Some Hd Hw.
  enter_branch env Hl Ht. simpl.
  rewrite bind_unfold; cbn [py_pop mret M_ret]; rewrite content_pop, Hc. simpl.
  rewrite bind_unfold; cbn [py_pop mret M_ret]; rewrite Hts.
  rewrite (bind_ok _ _ _ _ _ (self_db_eq _ _ _ Ho)), Hr.
  unfold db_add_transactions. rewrite !bind_unfold, (deref_db_eq _ _ _ Hd). simpl.
  unfold create_transactions_ack, uuid_uuid4.
  rewrite !bind_unfold. cbn [py_iter mret M_ret].
  rewrite bind_unfold, (map_each_ids _ _ _ Hids). cbn [mret M_ret].
  rewrite bind_unfold, write_message_ok by done.
  by apply broadcast_unfold with k.
Qed.


End branches.




(** ** What a message can change *)

Ltac same_side :=
  try done;
  try (intros; eexists; split; [eassumption | first [lia | reflexivity]]).

#[global] Instance affects_preorder self : PreOrder (affects self).
Proof.
  split.
  - intros w. split; same_side.
  - intros w1 w2 w3 H12 H23.
    assert (Hk : store_key_of w2 self = store_key_of w1 self)
      by (unfold store_key_of; by rewrite (a_objs _ _ _ H12)).
    assert (Hd : db_of w2 self = db_of w1 self)
      by (unfold db_of; by rewrite (a_objs _ _ _ H12)).
    split.
    + by rewrite (a_objs _ _ _ H23), (a_objs _ _ _ H12).
    + by rewrite (a_stores _ _ _ H23), (a_stores _ _ _ H12).
    + by rewrite (a_handlers _ _ _ H23), (a_handlers _ _ _ H12).
    + intros k Hne. rewrite (a_ids_other _ _ _ H23) by by rewrite Hk.
      by apply (a_ids_other _ _ _ H12).
    + intros k c Hc. destruct (a_ids_up _ _ _ H12 k c Hc) as (c2 & Hc2 & ?).
      destruct (a_ids_up _ _ _ H23 k c2 Hc2) as (c3 & Hc3 & ?).
      exists c3. split; [done | lia].
    + intros r Hne. rewrite (a_dbs_other _ _ _ H23) by by rewrite Hd.
      by apply (a_dbs_other _ _ _ H12).
    + intros r d Hr. destruct (a_dbs_grow _ _ _ H12 r d Hr) as (d2 & Hd2 & ?).
      destruct (a_dbs_grow _ _ _ H23 r d2 Hd2) as (d3 & Hd3 & ?).
      exists d3. split; [done | by etrans].
    + by rewrite (a_dbs_length _ _ _ H23), (a_dbs_length _ _ _ H12).
    + etrans; [apply (a_sent _ _ _ H12) | apply (a_sent _ _ _ H23)].
    + pose proof (a_drawn _ _ _ H12). pose proof (a_drawn _ _ _ H23). lia.
Qed.

Create HintDb pres discriminated.

#[global] Hint Resolve preserves_ret preserves_raise preserves_gets
  preserves_from_opt preserves_bind preserves_for_each preserves_map_each : pres.
#[global] Hint Extern 0 (PreOrder _) => tc_solve : pres.
#[global] Hint Extern 1 (preserves _ (if ?b then _ else _)) => destruct b : pres.
#[global] Hint Extern 1 (preserves _ (match ?p with (_, _) => _ end)) =>
  destruct p : pres.

Ltac pres := eauto 40 with pres.

Lemma affects_with_sent self out w : affects self w (with_sent (.++ out) w).
Proof. split; simpl; same_side. by apply prefix_app_r. Qed.

Lemma affects_with_drawn self w : affects self w (with_drawn S w).
Proof. split; simpl; same_side. lia. Qed.

Lemma preserves_py_pop R `{!PreOrder R} o k dflt : preserves R (py_pop o k dflt).
Proof. destruct o; simpl; pres. Qed.

Lemma preserves_self_store_key R `{!PreOrder R} self :
  preserves R (self_store_key self).
Proof. unfold self_store_key. pres. Qed.

Lemma preserves_deref_db R `{!PreOrder R} r : preserves R (deref_db r).
Proof. destruct r; simpl; pres. Qed.

Lemma preserves_as_list R `{!PreOrder R} j : preserves R (as_list j).
Proof. destruct j; simpl; pres. Qed.

Lemma preserves_py_iter R `{!PreOrder R} j : preserves R (py_iter j).
Proof. destruct j; simpl; pres. Qed.

Lemma preserves_py_getitem R `{!PreOrder R} t k : preserves R (py_getitem t k).
Proof. destruct t; simpl; pres. Qed.

#[global] Hint Resolve preserves_py_pop preserves_self_store_key
  preserves_deref_db preserves_as_list preserves_py_iter
  preserves_py_getitem : pres.

Lemma affects_uuid `{RT : Runtime} self : preserves (affects self) uuid_uuid4.
Proof. intros w. apply affects_with_drawn. Qed.

Lemma affects_write_message self h message :
  preserves (affects self) (write_message h message).
Proof.
  unfold write_message. apply preserves_bind; [tc_solve | pres | intros o].
  destruct (ws_connection o); [|pres].
  apply preserves_modify. intros w. apply affects_with_sent.
Qed.

#[global] Hint Resolve affects_uuid affects_write_message : pres.

Lemma affects_broadcast self message :
  preserves (affects self) (broadcast self message).
Proof. unfold broadcast. pres. Qed.

Lemma affects_create_store_id self : preserves (affects self) (create_store_id self).
Proof.
  intros w. unfold create_store_id.
  destruct (store_key_of w self) as [k|] eqn:Hk.
  - rewrite (bind_ok _ _ _ _ _ (self_store_key_eq _ _ _ Hk)). mred.
    destruct (store_ids w !! k) as [c|] eqn:Hc; mred; [|reflexivity].
    rewrite lookup_insert_eq. simpl. split; simpl; same_side.
    + intros k' Hne. rewrite lookup_insert_ne; [done | congruence].
    + intros k' c' Hc'. destruct (decide (k' = k)) as [->|].
      * rewrite lookup_insert_eq. exists (1 + c). split; [done|].
        rewrite Hc in Hc'. injection Hc' as <-. lia.
      * rewrite lookup_insert_ne by done. exists c'. split; [done | lia].
  - rewrite (bind_raise _ _ _ _ _ (self_store_key_unset _ _ Hk)). reflexivity.
Qed.

Lemma self_db_bind {B} self (f : option nat → M B) w :
  (self_db self ≫= f) w
  = match objs w !! self with
    | Some o => f (db o) w
    | None => (Raise AttributeError, w)
    end.
Proof. unfold self_db. mred. by destruct (objs w !! self). Qed.

Lemma affects_add_transactions self w transactions :
  affects self w (db_add_transactions (db_of w self) transactions w).2.
Proof.
  unfold db_add_transactions. rewrite bind_unfold.
  destruct (db_of w self) as [r|] eqn:Hr; simpl; [|reflexivity].
  mred. destruct (dbs w !! r) as [d|] eqn:Hd; mred; [|reflexivity].
  destruct transactions; mred; try reflexivity.
  split; simpl; same_side.
  - intros r' Hne. rewrite list_lookup_insert_ne; [done | congruence].
  - intros r' d' Hd'. destruct (decide (r' = r)) as [->|].
    + rewrite list_lookup_insert_eq by by eapply lookup_lt_Some.
      eexists. split; [done|]. rewrite Hd in Hd'. injection Hd' as <-.
      simpl. by apply prefix_app_r.
    + rewrite list_lookup_insert_ne by done. by exists d'.
  - by rewrite length_insert.
Qed.


Lemma preserves_self_db R `{!PreOrder R} self : preserves R (self_db self).
Proof. unfold self_db. pres. Qed.

Lemma preserves_db_history R `{!PreOrder R} r : preserves R (db_history r).
Proof. unfold db_history. pres. Qed.

Lemma preserves_db_get_transactions R `{!PreOrder R} r ids :
  preserves R (db_get_transactions r ids).
Proof. unfold db_get_transactions. pres. Qed.

#[global] Hint Resolve preserves_self_db preserves_db_history
  preserves_db_get_transactions affects_broadcast affects_create_store_id : pres.

Section footprint.
Context `{RT : Runtime}.

Lemma affects_create_storeid_reply self parent_id store_id :
  preserves (affects self) (create_storeid_reply parent_id store_id).
Proof. unfold create_storeid_reply. pres. Qed.

Lemma affects_create_transactions_ack self parent_id transactions :
  preserves (affects self) (create_transactions_ack parent_id transactions).
Proof. unfold create_transactions_ack. pres. Qed.

Lemma affects_create_history_reply self parent_id transactions :
  preserves (affects self) (create_history_reply parent_id transactions).
Proof. unfold create_history_reply. pres. Qed.

Lemma affects_create_fetch_reply self parent_id transactions :
  preserves (affects self) (create_fetch_reply parent_id transactions).
Proof. unfold create_fetch_reply. pres. Qed.

Hint Resolve affects_create_storeid_reply affects_create_transactions_ack
  affects_create_history_reply affects_create_fetch_reply : pres.

(** The footprint of [on_message], for every message and every world. *)
Lemma affects_on_message self message :
  preserves (affects self) (on_message self message).
Proof.
  unfold on_message.
  apply preserves_bind; [tc_solve | pres | intros msg].
  apply preserves_bind; [tc_solve | pres | intros [msg_type msg1]].
  apply preserves_bind; [tc_solve | pres | intros [msg_id msg2]].
  destruct (py_eq_str msg_type "transaction-broadcast"); [|pres].
  apply preserves_bind; [tc_solve | pres | intros [content msg3]].
  destruct (is_none content); [pres|].
  apply preserves_bind; [tc_solve | pres | intros [transactions content']].
  intros w. rewrite self_db_bind.
  destruct (objs w !! self) as [o|] eqn:Ho; [|reflexivity].
  assert (db o = db_of w self) as -> by (unfold db_of; by rewrite Ho).
  rewrite bind_unfold.
  pose proof (affects_add_transactions self w transactions) as Ha.
  destruct (db_add_transactions _ _ _) as [[[]|e] w1]; simpl in Ha; [|exact Ha].
  etrans; [exact Ha|]. clear Ha. revert w1.
  change (preserves (affects self)
            (reply ← create_transactions_ack msg_id transactions;
             write_message self (json_dumps reply);; broadcast self message)).
  pres.
Qed.

End footprint.


(** ** What [open] and [on_close] do *)

Section lifecycle.
Context `{RT : Runtime}.

Lemma open_bound h k w :
  is_Some (objs w !! h) →
  (k0 ← mret k;
   modify (with_objs (alter (set_store_key k0) h));;
   k ← self_store_key h;
   ids ← gets store_ids;
   (if ids !! k is None then modify (with_store_ids (<[k := 0]>)) else mret tt);;
   st ← gets stores;
   (if st !! k is None
    then r ← new_DatastoreDB; modify (with_stores (<[k := r]>))
    else mret tt);;
   r ← gets (λ w, stores w !! k) ≫= from_opt KeyError;
   modify (with_objs (alter (set_db (Some r)) h));;
   hs ← gets handlers;
   (if hs !! k is None then modify (with_handlers (<[k := []]>)) else mret tt);;
   l ← gets (λ w, handlers w !! k) ≫= from_opt KeyError;
   modify (with_handlers (<[k := l ++ [h]]>))) w
  = (Ok tt, opened h k w).
Proof.
  intros [o Ho]. rewrite bind_unfold. cbn [mret M_ret].
  rewrite bind_unfold. unfold modify at 1.
  rewrite bind_unfold, (self_store_key_eq _ _ k); last first.
  { apply store_key_of_Some. exists (set_store_key k o). split; [|done].
    simpl. by rewrite list_lookup_alter_eq, Ho. }
  unfold opened, log_ref.
  destruct (store_ids w !! k) as [c|] eqn:Hc;
  destruct (stores w !! k) as [r|] eqn:Hr;
  destruct (handlers w !! k) as [l|] eqn:Hl;
    repeat (progress (mred; rewrite ?Hc, ?Hr, ?Hl, ?lookup_insert_eq));
    unfold with_handlers, with_objs, with_stores, with_store_ids, with_dbs;
    simpl; rewrite ?insert_insert_eq; reflexivity.
Qed.

Lemma open_eq h a w :
  is_Some (objs w !! h) →
  open h a w
  = (Ok tt, match a with
            | Some s => opened h (KStr s) w
            | None => opened h (KUuid (uuid4 (drawn w))) (with_drawn S w)
            end).
Proof.
  intros Ho. unfold open. destruct a as [s|].
  - by rewrite <- (open_bound h (KStr s) w).
  - rewrite <- (open_bound h _ (with_drawn S w)) by done.
    rewrite !bind_unfold. reflexivity.
Qed.

End lifecycle.


Lemma peers_absent x l : x ∉ l → peers x l = l.
Proof.
  unfold peers. induction l as [|y l IH]; [done|].
  intros [Hy Hl]%not_elem_of_cons.
  rewrite filter_cons_True by done. f_equal. by apply IH.
Qed.

Lemma list_remove_None x l : list_remove x l = None ↔ x ∉ l.
Proof.
  induction l as [|y l IH]; simpl.
  - split; [intros _; apply not_elem_of_nil | done].
  - rewrite not_elem_of_cons. case_decide as Hy.
    + split; [done | intros [? _]; congruence].
    + destruct (list_remove x l); simpl.
      * split; [done | intros [_ Hx]]. by apply IH in Hx.
      * split; [intros _ | done]. split; [congruence | by apply IH].
Qed.

Lemma list_remove_Some x l l' :
  list_remove x l = Some l' →
  x ∈ l ∧ l' `sublist_of` l ∧ (NoDup l → l' = peers x l).
Proof.
  revert l'. induction l as [|y l IH]; intros l'; simpl; [done|].
  case_decide as Hy.
  - intros [= <-]. subst y. split; [left|]. split; [by apply sublist_cons|].
    intros [Hx _]%NoDup_cons. rewrite <- (peers_absent x l) at 1 by done.
    unfold peers. rewrite filter_cons_False; [done | by intros []].
  - destruct (list_remove x l) as [l0|]; simpl; [|done]. intros [= <-].
    destruct (IH l0 eq_refl) as (? & ? & Hp).
    split; [by right|]. split; [by apply sublist_skip|].
    intros [_ Hl]%NoDup_cons. unfold peers.
    rewrite filter_cons_True by done. f_equal. by apply Hp.
Qed.

Section closing.
Context `{RT : Runtime}.

Lemma on_close_eq self w k l :
  store_key_of w self = Some k → handlers w !! k = Some l →
  on_close self w
  = match list_remove self l with
    | Some l' => (Ok tt, with_handlers (<[k := l']>) w)
    | None => (Raise ValueError, w)
    end.
Proof.
  intros Hk Hl. unfold on_close. rewrite bind_unfold.
  rewrite decide_False by (intros H; by apply H). cbn [mret M_ret].
  rewrite (bind_ok _ _ _ _ _ (self_store_key_eq _ _ _ Hk)).
  mred. rewrite Hl. mred. by destruct (list_remove self l).
Qed.

Lemma on_close_unopened self w :
  store_key_of w self = None → on_close self w = (Raise AttributeError, w).
Proof.
  intros Hk. unfold on_close. rewrite bind_unfold.
  rewrite decide_False by (intros H; by apply H). cbn [mret M_ret].
  by rewrite (bind_raise _ _ _ _ _ (self_store_key_unset _ _ Hk)).
Qed.

End closing.



(** ** The invariant of the process *)

Lemma consistent_boot : consistent boot.
Proof. split; intros *; simpl; try done. Qed.

Lemma consistent_affects self w w' :
  consistent w → affects self w w' → consistent w'.
Proof.
  intros Hc Ha.
  assert (Hk : ∀ h, store_key_of w' h = store_key_of w h)
    by (intros h; unfold store_key_of; by rewrite (a_objs _ _ _ Ha)).
  assert (Hd : ∀ h, db_of w' h = db_of w h)
    by (intros h; unfold db_of; by rewrite (a_objs _ _ _ Ha)).
  split.
  - intros h k. rewrite Hk, Hd, (a_handlers _ _ _ Ha), (a_stores _ _ _ Ha).
    intros ([c Hc'] & ? & ?)%(c_bound _ Hc). split; [|done].
    destruct (a_ids_up _ _ _ Ha k c Hc') as (c' & -> & _). by eexists.
  - intros k r. rewrite (a_stores _ _ _ Ha). intros [d Hd']%(c_dbs _ Hc).
    destruct (a_dbs_grow _ _ _ Ha r d Hd') as (d' & -> & _). by eexists.
  - intros k1 k2 r. rewrite (a_stores _ _ _ Ha). apply (c_inj _ Hc).
  - intros k l h. rewrite Hk, (a_handlers _ _ _ Ha). apply (c_reg _ Hc).
  - intros k l. rewrite (a_handlers _ _ _ Ha). apply (c_nodup _ Hc).
Qed.


(** *** [open] keeps the invariant *)

Section opened.
Context (h : nat) (k : key) (w : World).

Lemma opened_store_key h' :
  is_Some (objs w !! h) →
  store_key_of (opened h k w) h'
  = if decide (h' = h) then Some k else store_key_of w h'.
Proof.
  intros [o Ho]. unfold store_key_of, opened. simpl. case_decide as Hh.
  - subst h'. by rewrite !list_lookup_alter_eq, Ho.
  - by rewrite !list_lookup_alter_ne.
Qed.

Lemma opened_db h' :
  is_Some (objs w !! h) →
  db_of (opened h k w) h' = if decide (h' = h) then Some (log_ref k w) else db_of w h'.
Proof.
  intros [o Ho]. unfold db_of, opened. simpl. case_decide as Hh.
  - subst h'. by rewrite !list_lookup_alter_eq, Ho.
  - by rewrite !list_lookup_alter_ne.
Qed.

Lemma opened_stores_eq : stores (opened h k w) !! k = Some (log_ref k w).
Proof.
  unfold opened, log_ref. simpl. destruct (stores w !! k) as [r0|] eqn:Hr; [done|].
  by rewrite lookup_insert_eq.
Qed.

Lemma opened_stores_ne k' :
  k' ≠ k → stores (opened h k w) !! k' = stores w !! k'.
Proof.
  intros Hk. unfold opened. simpl. destruct (stores w !! k); [done|].
  by rewrite lookup_insert_ne.
Qed.

Lemma opened_stores_old k' r' :
  stores w !! k' = Some r' → stores (opened h k w) !! k' = Some r'.
Proof.
  intros Hr. destruct (decide (k' = k)) as [->|].
  - rewrite opened_stores_eq. unfold log_ref. by rewrite Hr.
  - by rewrite opened_stores_ne.
Qed.

Lemma opened_store_ids k' c :
  store_ids w !! k' = Some c → store_ids (opened h k w) !! k' = Some c.
Proof.
  intros Hc. unfold opened. simpl.
  destruct (store_ids w !! k) eqn:Hk; [done|].
  rewrite lookup_insert_ne; [done | congruence].
Qed.

Lemma opened_store_ids_eq :
  store_ids (opened h k w) !! k = Some (default 0 (store_ids w !! k)).
Proof.
  unfold opened. simpl. destruct (store_ids w !! k) eqn:Hk; [done|].
  by rewrite lookup_insert_eq.
Qed.

Lemma opened_dbs r' d :
  dbs w !! r' = Some d → dbs (opened h k w) !! r' = Some d.
Proof.
  intros Hd. unfold opened. simpl. destruct (stores w !! k); [done|].
  by apply lookup_app_l_Some.
Qed.

Lemma opened_consistent :
  consistent w → store_key_of w h = None → is_Some (objs w !! h) →
  consistent (opened h k w).
Proof.
  intros Hc Hu Ho. split.
  - intros h' k'. rewrite opened_store_key, opened_db by done.
    case_decide as Hh.
    + intros [= <-]. split; [by rewrite opened_store_ids_eq|].
      split; [unfold opened; simpl; by rewrite lookup_insert_eq|].
      exists (log_ref k w). by rewrite opened_stores_eq.
    + intros ([c Hc'] & Hl & r' & Hr & Hd)%(c_bound _ Hc).
      split; [by rewrite (opened_store_ids _ _ Hc')|]. split.
      * unfold opened. simpl. destruct (decide (k' = k)) as [->|].
        -- by rewrite lookup_insert_eq.
        -- by rewrite lookup_insert_ne.
      * exists r'. split; [by apply opened_stores_old | done].
  - intros k' r'. destruct (decide (k' = k)) as [->|Hk].
    + rewrite opened_stores_eq. intros [= <-]. unfold log_ref, opened. simpl.
      destruct (stores w !! k) as [r0|] eqn:Hr; simpl.
      * by apply (c_dbs _ Hc k).
      * rewrite lookup_app_r, Nat.sub_diag by done. by eexists.
    + rewrite opened_stores_ne by done.
      intros [d Hd]%(c_dbs _ Hc). rewrite (opened_dbs _ _ Hd). by eexists.
  - assert (Hfresh : ∀ k' r', stores w !! k = None →
              stores w !! k' = Some r' → r' ≠ length (dbs w)).
    { intros k' r' _ [d Hd%lookup_lt_Some]%(c_dbs _ Hc). lia. }
    intros k1 k2 r'.
    destruct (decide (k1 = k)) as [->|H1]; destruct (decide (k2 = k)) as [->|H2];
      rewrite ?opened_stores_eq, ?opened_stores_ne by done; [done| | |].
    + intros [= <-] Hr'. unfold log_ref in Hr'.
      destruct (stores w !! k) as [r0|] eqn:Hr; simpl in Hr'.
      * symmetry. by apply (c_inj _ Hc k2 k r0).
      * by apply Hfresh in Hr'.
    + intros Hr' [= <-]. unfold log_ref in Hr'.
      destruct (stores w !! k) as [r0|] eqn:Hr; simpl in Hr'.
      * by apply (c_inj _ Hc k1 k r0).
      * by apply Hfresh in Hr'.
    + apply (c_inj _ Hc).
  - intros k' l' h'. rewrite opened_store_key by done.
    unfold opened. simpl. destruct (decide (k' = k)) as [->|Hk].
    + rewrite lookup_insert_eq. intros [= <-] [Hin | ->%list_elem_of_singleton]%elem_of_app.
      * destruct (handlers w !! k) as [l|] eqn:Hl; simpl in Hin;
          [|by apply elem_of_nil in Hin].
        pose proof (c_reg _ Hc _ _ _ Hl Hin) as Hk'.
        case_decide; [done | exact Hk'].
      * by rewrite decide_True.
    + rewrite lookup_insert_ne by done. intros Hl Hin.
      pose proof (c_reg _ Hc _ _ _ Hl Hin) as Hk'.
      case_decide; [congruence | exact Hk'].
  - intros k' l'. unfold opened. simpl. destruct (decide (k' = k)) as [->|Hk].
    + rewrite lookup_insert_eq. intros [= <-].
      destruct (handlers w !! k) as [l|] eqn:Hl; simpl;
        [|apply NoDup_singleton].
      apply NoDup_app. split; [by apply (c_nodup _ Hc k)|].
      split; [|apply NoDup_singleton].
      intros h' Hin ->%list_elem_of_singleton.
      pose proof (c_reg _ Hc _ _ _ Hl Hin). congruence.
    + rewrite lookup_insert_ne by done. apply (c_nodup _ Hc).
Qed.

End opened.


(** *** The other callbacks keep the invariant *)

Lemma consistent_objs w w' :
  (∀ h, store_key_of w' h = store_key_of w h) →
  (∀ h, db_of w' h = db_of w h) →
  store_ids w' = store_ids w → stores w' = stores w →
  handlers w' = handlers w → dbs w' = dbs w →
  consistent w → consistent w'.
Proof.
  intros Hk Hd Hi Hs Hh Hdb Hc. split.
  - intros h k. rewrite Hk, Hd, Hi, Hs, Hh. apply (c_bound _ Hc).
  - intros k r. rewrite Hs, Hdb. apply (c_dbs _ Hc).
  - intros k1 k2 r. rewrite Hs. apply (c_inj _ Hc).
  - intros k l h. rewrite Hk, Hh. apply (c_reg _ Hc).
  - intros k l. rewrite Hh. apply (c_nodup _ Hc).
Qed.

Lemma connected_attr {A} (f : Handler → option A) w h :
  f {| store_key := None; db := None; ws_connection := true |} = None →
  (objs w ++ [{| store_key := None; db := None; ws_connection := true |}]) !! h
    ≫= f
  = objs w !! h ≫= f.
Proof.
  intros Hf. destruct (decide (h < length (objs w))%nat) as [Hlt|Hge].
  - by rewrite lookup_app_l.
  - rewrite (lookup_ge_None_2 (objs w)) by lia.
    rewrite lookup_app_r by lia.
    by destruct (h - length (objs w))%nat as [|n].
Qed.

Lemma hangup_attr {A} (f : Handler → option A) w h h' :
  (∀ o, f (set_ws_connection false o) = f o) →
  alter (set_ws_connection false) h (objs w) !! h' ≫= f = objs w !! h' ≫= f.
Proof.
  intros Hf. destruct (decide (h = h')) as [->|].
  - rewrite list_lookup_alter_eq. destruct (objs w !! h'); simpl; [apply Hf | done].
  - by rewrite list_lookup_alter_ne.
Qed.

Section steps.
Context `{RT : Runtime}.

Lemma consistent_with_drawn w : consistent w → consistent (with_drawn S w).
Proof. by apply consistent_objs. Qed.

Lemma consistent_on_close self w : consistent w → consistent (on_close self w).2.
Proof.
  intros Hc. destruct (store_key_of w self) as [k|] eqn:Hk;
    [|by rewrite on_close_unopened].
  destruct (c_bound _ Hc _ _ Hk) as (_ & [l Hl] & _).
  rewrite (on_close_eq _ _ _ _ Hk Hl).
  destruct (list_remove self l) as [l'|] eqn:Hrm; [simpl|done].
  apply list_remove_Some in Hrm as (_ & Hsub & _). split; simpl.
  - intros h k' Hk'. destruct (c_bound _ Hc _ _ Hk') as (? & ? & ?).
    split; [done|]. split; [|done].
    destruct (decide (k' = k)) as [->|];
      [by rewrite lookup_insert_eq | by rewrite lookup_insert_ne].
  - apply (c_dbs _ Hc).
  - apply (c_inj _ Hc).
  - intros k' l0 h. destruct (decide (k' = k)) as [->|].
    + rewrite lookup_insert_eq. intros [= <-] Hin.
      apply (c_reg _ Hc _ _ _ Hl). by eapply elem_of_sublist.
    + rewrite lookup_insert_ne by done. apply (c_reg _ Hc).
  - intros k' l0. destruct (decide (k' = k)) as [->|].
    + rewrite lookup_insert_eq. intros [= <-].
      eapply sublist_NoDup; [by apply (c_nodup _ Hc k) | exact Hsub].
    + rewrite lookup_insert_ne by done. apply (c_nodup _ Hc).
Qed.

Lemma unopened_spec w h :
  unopened w h = true ↔ is_Some (objs w !! h) ∧ store_key_of w h = None.
Proof.
  unfold unopened, store_key_of. destruct (objs w !! h) as [o|]; simpl.
  - destruct (store_key o); (split; [|by intros [_ ?]]); [done | by eauto].
  - split; [done | intros [[? ?] _]; done].
Qed.

Lemma consistent_step ev w : consistent w → consistent (step ev w).2.
Proof.
  intros Hc. destruct ev as [|h a|h m|h|h]; simpl.
  - revert Hc. apply consistent_objs; try done; intros h'; by apply connected_attr.
  - destruct (unopened w h) eqn:Hu; [|done].
    apply unopened_spec in Hu as [Ho Hu]. rewrite open_eq by done.
    destruct a; simpl; [by apply opened_consistent|].
    apply opened_consistent; [by apply consistent_with_drawn | done | done].
  - eapply consistent_affects; [done | apply affects_on_message].
  - revert Hc. apply consistent_objs; try done; intros h'; by apply hangup_attr.
  - by apply consistent_on_close.
Qed.

Lemma consistent_run evs w : consistent w → consistent (run evs w).
Proof.
  revert w. induction evs as [|ev evs IH]; intros w Hc; [done|].
  apply IH. by apply consistent_step.
Qed.

End steps.




(** ** What never goes back *)

#[global] Instance grows_preorder : PreOrder grows.
Proof.
  split.
  - intros w. split; same_side.
  - intros w1 w2 w3 H12 H23. split.
    + intros k c Hc. destruct (g_ids _ _ H12 k c Hc) as (c2 & Hc2 & ?).
      destruct (g_ids _ _ H23 k c2 Hc2) as (c3 & Hc3 & ?).
      exists c3. split; [done | lia].
    + intros k r Hr. by apply (g_stores _ _ H23), (g_stores _ _ H12).
    + intros r d Hr. destruct (g_dbs _ _ H12 r d Hr) as (d2 & Hd2 & ?).
      destruct (g_dbs _ _ H23 r d2 Hd2) as (d3 & Hd3 & ?).
      exists d3. split; [done | by etrans].
    + etrans; [apply (g_sent _ _ H12) | apply (g_sent _ _ H23)].
Qed.

Lemma grows_affects self w w' : affects self w w' → grows w w'.
Proof.
  intros Ha. split.
  - apply (a_ids_up _ _ _ Ha).
  - intros k r. by rewrite (a_stores _ _ _ Ha).
  - apply (a_dbs_grow _ _ _ Ha).
  - apply (a_sent _ _ _ Ha).
Qed.

Lemma grows_same w w' :
  store_ids w' = store_ids w → stores w' = stores w → dbs w' = dbs w →
  sent w' = sent w → grows w w'.
Proof. intros Hi Hs Hd Hw. split; rewrite ?Hi, ?Hs, ?Hd, ?Hw; same_side. Qed.

Lemma grows_opened h k w : grows w (opened h k w).
Proof.
  split.
  - intros k' c Hc. exists c. split; [by apply opened_store_ids | lia].
  - apply opened_stores_old.
  - intros r d Hd. exists d. split; [by apply opened_dbs | done].
  - done.
Qed.

Lemma grows_log w w' k l :
  grows w w' → log_of w k = Some l → ∃ l', log_of w' k = Some (l ++ l').
Proof.
  intros Hg. unfold log_of.
  destruct (stores w !! k) as [r|] eqn:Hr; simpl; [|done].
  rewrite (g_stores _ _ Hg _ _ Hr). simpl.
  destruct (dbs w !! r) as [d|] eqn:Hd; simpl; [|done]. intros [= <-].
  destruct (g_dbs _ _ Hg _ _ Hd) as (d' & -> & [l' Hl']). simpl.
  exists l'. by rewrite Hl'.
Qed.

Section growth.
Context `{RT : Runtime}.

Lemma grows_step ev w : grows w (step ev w).2.
Proof.
  destruct ev as [|h a|h m|h|h]; simpl.
  - by apply grows_same.
  - destruct (unopened w h) eqn:Hu; [|reflexivity].
    apply unopened_spec in Hu as [Ho Hu]. rewrite open_eq by done.
    destruct a; simpl; [apply grows_opened|].
    etrans; [|apply grows_opened]. by apply grows_same.
  - eapply grows_affects, affects_on_message.
  - by apply grows_same.
  - destruct (store_key_of w h) as [k|] eqn:Hk;
      [|rewrite on_close_unopened by done; reflexivity].
    unfold on_close. rewrite bind_unfold.
    rewrite decide_False by (intros H; by apply H). cbn [mret M_ret].
    rewrite (bind_ok _ _ _ _ _ (self_store_key_eq _ _ _ Hk)). mred.
    destruct (handlers w !! k) as [l|]; mred; [|reflexivity].
    destruct (list_remove h l); mred; [by apply grows_same | reflexivity].
Qed.

Lemma grows_run evs w : grows w (run evs w).
Proof.
  revert w. induction evs as [|ev evs IH]; intros w; [reflexivity|].
  etrans; [apply (grows_step ev) | apply IH].
Qed.

End growth.


(** ** The protocol properties *)

Section protocol.
Context `{RT : Runtime}.

Implicit Types (w : World) (env content : gmap string json).

Lemma env_type_eq env rt : env !! "msgType" = Some (JStr rt) → env_type env = JStr rt.
Proof. unfold env_type. by intros ->. Qed.

Lemma consistent_session w self k :
  consistent w → store_key_of w self = Some k →
  ∃ r d c l, stores w !! k = Some r ∧ db_of w self = Some r ∧
    dbs w !! r = Some d ∧ log_of w k = Some (log d) ∧
    store_ids w !! k = Some c ∧ handlers w !! k = Some l ∧ NoDup l.
Proof.
  intros Hc Hk. destruct (c_bound _ Hc _ _ Hk) as ([c Hi] & [l Hl] & r & Hr & Hd).
  destruct (c_dbs _ Hc _ _ Hr) as [d Hdb]. exists r, d, c, l.
  repeat split; try done.
  - unfold log_of. rewrite Hr. simpl. by rewrite Hdb.
  - by apply (c_nodup _ Hc k).
Qed.

Lemma to_peers_Forall self message l l' :
  l' `prefix_of` peers self l →
  Forall (λ p : nat * string, p.1 ≠ self ∧ p.2 = message) (to_peers message l').
Proof.
  intros [l'' Hl]. apply Forall_fmap, Forall_forall. intros p Hp. simpl.
  split; [|done]. apply (peers_spec self l). rewrite Hl. apply elem_of_app. by left.
Qed.

(** C7: a well-formed request of one of the four types gets exactly one
    reply written to the requesting session: its [parentId] is the
    request's [msgId], its [msgId] is the value drawn from [uuid4]
    during the call (one draw per call), its [msgType] is the reply
    type of the request.  Anything else written during the call goes
    to another session and is the original message, not the reply. *)
Theorem one_direct_reply self message env rt reply_t w k :
  consistent w → store_key_of w self = Some k → writable w self = true →
  json_loads message = Some (JObj env) →
  env !! "msgType" = Some (JStr rt) →
  reply_type rt = Some reply_t → well_formed rt env = true →
  ∃ (body : json) rest,
    sent (on_message self message w).2
    = sent w ++ (self, json_dumps (reply_envelope (uuid4 (drawn w)) reply_t
                                     (env_id env) body)) :: rest
    ∧ Forall (λ p, p.1 ≠ self ∧ p.2 = message) rest
    ∧ (rt ≠ "transaction-broadcast" → rest = [])
    ∧ drawn (on_message self message w).2 = S (drawn w).
Proof.
  intros Hc Hk Hw Hl Ht%env_type_eq Hrt Hwf.
  destruct (consistent_session _ _ _ Hc Hk) as (r & d & c & l & _ & Hr & Hd & _ & Hi & Hh & _).
  unfold reply_type in Hrt.
  destruct (decide (rt = "transaction-broadcast")) as [->|?];
    [|destruct (decide (rt = "storeid-request")) as [->|?];
      [|destruct (decide (rt = "history-request")) as [->|?];
        [|destruct (decide (rt = "fetch-transaction-request")) as [->|?];
          [|done]]]];
    injection Hrt as <-; unfold well_formed in Hwf; simpl in Hwf.
  - destruct (env !! "content") as [[| | | | | |content]|] eqn:Hco; try done.
    destruct (content !! "transactions") as [[| | | | |ts|]|] eqn:Hts; try done.
    apply bool_decide_eq_true in Hwf as [ids Hids].
    rewrite (on_message_transactions _ _ _ content ts ids _ k r d l)
      by (try done; by rewrite Hts).
    destruct (deliver_some self message l (acked self env r d ts ids w))
      as (l' & Hl' & ->).
    eexists _, (to_peers message l'). simpl.
    split; [by rewrite <- (assoc_L (++))|].
    split; [by eapply to_peers_Forall|]. split; [by intros [] | reflexivity].
  - rewrite (on_message_storeid _ _ _ _ k c) by done. simpl.
    eexists _, [].
    split; [reflexivity|]. split; [constructor|]. split; [done | reflexivity].
  - rewrite (on_message_history _ _ _ _ r d) by done. simpl.
    eexists _, [].
    split; [reflexivity|]. split; [constructor|]. split; [done | reflexivity].
  - destruct (env !! "content") as [[| | | | | |content]|] eqn:Hco; try done.
    destruct (content !! "transactionIds") as [[| | | | |ids|]|] eqn:Hids; try done.
    rewrite (on_message_fetch _ _ _ content ids _ r d)
      by (try done; by rewrite Hids).
    simpl. eexists _, [].
    split; [reflexivity|]. split; [constructor|]. split; [done | reflexivity].
Qed.

(** C8: an envelope whose [msgType] is none of the four request types
    (or is missing) is a no-op: [on_message] returns normally, writes
    nothing and leaves the whole world as it was. *)
Theorem unknown_type_is_noop self message env w :
  json_loads message = Some (JObj env) →
  recognized (env_type env) = false →
  on_message self message w = (Ok tt, w).
Proof. apply on_message_unknown. Qed.

(** C4, as the code has it: a [transaction-broadcast] or
    [fetch-transaction-request] envelope whose [content] is missing or
    null is dropped: [on_message] returns normally, writes nothing and
    leaves the whole world, the log included, as it was. *)
Theorem missing_content_is_dropped self message env rt w :
  json_loads message = Some (JObj env) →
  env_type env = JStr rt →
  rt = "transaction-broadcast" ∨ rt = "fetch-transaction-request" →
  default JNull (env !! "content") = JNull →
  on_message self message w = (Ok tt, w).
Proof. apply on_message_no_content. Qed.

Lemma add_nothing r d w : dbs w !! r = Some d →
  with_dbs (<[r := add_transactions [] d]>) w = w.
Proof.
  intros Hd. destruct w as [? ? ? dbs' ? ? ?], d as [l]. unfold with_dbs. simpl in *.
  unfold add_transactions. simpl. rewrite app_nil_r. by rewrite list_insert_id.
Qed.

(** C10: with a [content] object that lacks the list key, the list is
    taken to be empty.  A [transaction-broadcast] appends nothing (the
    logs are as before), acks with no ids and is still forwarded to
    every peer of the key; a [fetch-transaction-request] looks nothing
    up and is answered with no transactions. *)
Theorem missing_list_is_empty self message env content w k l :
  consistent w → store_key_of w self = Some k → writable w self = true →
  handlers w !! k = Some l →
  json_loads message = Some (JObj env) →
  env !! "content" = Some (JObj content) →
  (env_type env = JStr "transaction-broadcast" →
   content !! "transactions" = None →
   (∀ p, p ∈ l → p ≠ self → writable w p = true) →
   on_message self message w
   = (Ok tt,
      with_sent (.++ (self, ack_of env [] w) :: to_peers message (peers self l))
        (with_drawn S w)))
  ∧ (env_type env = JStr "fetch-transaction-request" →
     content !! "transactionIds" = None →
     on_message self message w
     = (Ok tt,
        with_sent (.++ [(self, fetch_reply_of env [] w)]) (with_drawn S w))).
Proof.
  intros Hc Hk Hw Hh Hl Hco.
  destruct (consistent_session _ _ _ Hc Hk) as (r & d & c & l0 & _ & Hr & Hd & _ & _ & _ & _).
  split.
  - intros Ht Hts Hp.
    rewrite (on_message_transactions _ _ _ content [] [] _ k r d l)
      by (try done; by rewrite Hts).
    rewrite deliver_all by done. unfold acked.
    by rewrite (add_nothing _ _ _ Hd), with_sent_app.
  - intros Ht Hids.
    by rewrite (on_message_fetch _ _ _ content [] _ r d)
      by (try done; by rewrite Hids).
Qed.

End protocol.


Section broadcasting.
Context `{RT : Runtime}.

Implicit Types (w : World) (env content : gmap string json).


(** C9, as the code has it: the peers are written to in registration
    order and nothing catches a failed write.  When the connection of
    peer [p] refuses the write, the peers registered before [p] have
    the message, [p] and the peers after it do not, and
    [WebSocketClosedError] leaves [on_message] of the sender.  The
    ack was written before the broadcast started. *)
Theorem broadcast_stops_at_failure self message env content ts ids w k l1 p l2 :
  consistent w → store_key_of w self = Some k → writable w self = true →
  handlers w !! k = Some (l1 ++ p :: l2) →
  json_loads message = Some (JObj env) →
  env_type env = JStr "transaction-broadcast" →
  env !! "content" = Some (JObj content) →
  default (JArr []) (content !! "transactions") = JArr ts →
  tx_ids ts = Some ids →
  (∀ q, q ∈ l1 → q ≠ self → writable w q = true) →
  p ≠ self → writable w p = false →
  (on_message self message w).1 = Raise WebSocketClosedError
  ∧ sent (on_message self message w).2
    = sent w ++ (self, ack_of env ids w) :: to_peers message (peers self l1).
Proof.
  intros Hc Hk Hw Hh Hl Ht Hco Hts Hids Hq Hp Hpw.
  destruct (consistent_session _ _ _ Hc Hk)
    as (r & d & c & l0 & Hst & Hr & Hd & Hlog & _ & _ & _).
  assert (∃ o, objs w !! p = Some o ∧ ws_connection o = false) as (o & Ho & Hws).
  { assert (store_key_of w p = Some k) as (o & Ho & _)%store_key_of_Some.
    { apply (c_reg _ Hc _ _ _ Hh), elem_of_app. right. left. }
    exists o. split; [done|]. unfold writable in Hpw. by rewrite Ho in Hpw. }
  rewrite (on_message_transactions _ _ _ content ts ids _ k r d _) by done.
  rewrite (deliver_stops _ _ _ _ _ _ o) by done. simpl.
  split; [done | by rewrite <- (assoc_L (++))].
Qed.

(** C5, as the code has it: closing a session that its key's list
    holds removes it and leaves exactly the other sessions of the key;
    closing a session that the list does not hold raises [ValueError],
    closing one that was never opened raises [AttributeError], and
    either way nothing changes, the list included. *)
Theorem close_removes_or_raises self w :
  is_Some (objs w !! self) →
  (store_key_of w self = None → on_close self w = (Raise AttributeError, w))
  ∧ ∀ k l,
      store_key_of w self = Some k → handlers w !! k = Some l → NoDup l →
      (self ∈ l →
       on_close self w = (Ok tt, with_handlers (<[k := peers self l]>) w)
       ∧ ∀ p, p ∈ peers self l ↔ p ∈ l ∧ p ≠ self)
      ∧ (self ∉ l → on_close self w = (Raise ValueError, w)).
Proof.
  intros _. split; [apply on_close_unopened|].
  intros k l Hk Hl Hnd. rewrite (on_close_eq _ _ _ _ Hk Hl). split.
  - intros Hin. destruct (list_remove self l) as [l'|] eqn:Hrm.
    + apply list_remove_Some in Hrm as (_ & _ & ->); [|done].
      split; [done | apply peers_spec].
    + by apply list_remove_None in Hrm.
  - intros Hout. by apply list_remove_None in Hout as ->.
Qed.

End broadcasting.


Section logs.
Context `{RT : Runtime}.

Implicit Types (w : World) (env content : gmap string json).

Lemma history_by_key h m env w k l :
  consistent w → store_key_of w h = Some k → writable w h = true →
  log_of w k = Some l →
  json_loads m = Some (JObj env) → env_type env = JStr "history-request" →
  on_message h m w
  = (Ok tt, with_sent (.++ [(h, history_reply_of env l w)]) (with_drawn S w)).
Proof.
  intros Hc Hk Hw Hlog Hl Ht.
  destruct (consistent_session _ _ _ Hc Hk)
    as (r & d & c & l0 & _ & Hr & Hd & Hlog' & _ & _ & _).
  rewrite Hlog in Hlog'. injection Hlog' as ->.
  by rewrite (on_message_history _ _ env _ r d).
Qed.



(** C2: a [transaction-broadcast] carrying [t1, ..., tn] puts them at
    the end of the log of the sender's key, in list order; the ack
    written to the sender lists [t1.id, ..., tn.id] in that order; and
    whatever happens afterwards, a [history-request] on the key is
    answered with the earlier log, then [t1, ..., tn], then what was
    appended later (nothing, when the request comes next). *)
Theorem append_in_order self message env content ts ids w k old :
  consistent w → store_key_of w self = Some k → writable w self = true →
  log_of w k = Some old →
  json_loads message = Some (JObj env) →
  env_type env = JStr "transaction-broadcast" →
  env !! "content" = Some (JObj content) →
  content !! "transactions" = Some (JArr ts) →
  tx_ids ts = Some ids →
  let w' := (on_message self message w).2 in
  log_of w' k = Some (old ++ ts)
  ∧ (∃ rest, sent w' = sent w ++ (self, ack_of env ids w) :: rest
             ∧ Forall (λ p, p.1 ≠ self) rest)
  ∧ ∀ evs h m env',
      let w'' := run evs w' in
      store_key_of w'' h = Some k → writable w'' h = true →
      json_loads m = Some (JObj env') →
      env_type env' = JStr "history-request" →
      ∃ later,
        (evs = [] → later = [])
        ∧ on_message h m w''
          = (Ok tt, with_sent (.++ [(h, history_reply_of env'
                                          (old ++ ts ++ later) w'')])
                      (with_drawn S w'')).
Proof.
  intros Hc Hk Hw Hold Hl Ht Hco Hts Hids w'.
  destruct (consistent_session _ _ _ Hc Hk)
    as (r & d & c & l & Hst & Hr & Hd & Hlog & _ & Hh & _).
  rewrite Hlog in Hold. injection Hold as <-.
  assert (Hc' : consistent w')
    by (eapply consistent_affects; [done | apply affects_on_message]).
  assert (Hw' : w' = (on_message self message w).2) by done. clearbody w'.
  rewrite (on_message_transactions _ _ _ content ts ids _ k r d l) in Hw'
    by (try done; by rewrite Hts).
  destruct (deliver_some self message l (acked self env r d ts ids w))
    as (l' & Hl' & Hs). rewrite Hs in Hw'. clear Hs.
  assert (Hlog' : log_of w' k = Some (log d ++ ts)).
  { subst w'. unfold log_of. simpl. rewrite Hst. simpl.
    rewrite list_lookup_insert_eq by by eapply lookup_lt_Some. done. }
  split; [done|]. split.
  - exists (to_peers message l'). subst w'. simpl.
    split; [by rewrite <- (assoc_L (++))|].
    eapply Forall_impl; [by eapply to_peers_Forall|]. by intros ? [? _].
  - intros evs h m env' w'' Hk' Hwr Hl2 Ht2.
    destruct (grows_log w' w'' k _ (grows_run evs w') Hlog') as [later Hlater].
    exists later. split.
    + intros ->. subst w''. simpl in Hlater. rewrite Hlog' in Hlater.
      injection Hlater as Hlater.
      rewrite <- (app_nil_r (log d ++ ts)) in Hlater at 1.
      by apply app_inv_head in Hlater.
    + rewrite (assoc_L (++)).
      apply history_by_key with k; try done. by apply consistent_run.
Qed.

End logs.

Section isolation.
Context `{RT : Runtime}.

Implicit Types (w : World) (env content : gmap string json).




End isolation.


(** ** Sequence ids *)

Lemma issued_sorted c n : StronglySorted Z.lt (issued c n).
Proof.
  unfold issued. revert c. induction n as [|n IH]; intros c; [constructor|].
  simpl. constructor.
  - rewrite <- fmap_S_seq, <- list_fmap_compose.
    erewrite list_fmap_ext; [apply (IH (c + 1))|]. intros _ i _. simpl. lia.
  - apply Forall_fmap, Forall_forall. intros i [? ?]%elem_of_seq. simpl. lia.
Qed.

Lemma issued_above c n : Forall (λ z, c < z) (issued c n).
Proof. apply Forall_fmap, Forall_forall. intros i _. simpl. lia. Qed.

Lemma issued_NoDup c n : NoDup (issued c n).
Proof.
  apply NoDup_fmap_2; [|apply NoDup_seq]. intros i j ?. lia.
Qed.

Lemma StronglySorted_sublist {A} (R : relation A) (l1 l2 : list A) :
  l1 `sublist_of` l2 → StronglySorted R l2 → StronglySorted R l1.
Proof.
  induction 1 as [|x l1 l2 Hsub IH|x l1 l2 Hsub IH]; [done| |].
  - intros [Hx Hl]%StronglySorted_cons. apply StronglySorted_cons.
    split; [|by apply IH].
    apply Forall_forall. intros y Hy. rewrite Forall_forall in Hx.
    apply Hx. by eapply elem_of_sublist.
  - intros [_ Hl]%StronglySorted_cons. by apply IH.
Qed.

Section sequence.
Context `{RT : Runtime}.

Implicit Types (w : World) (env content : gmap string json).

Lemma storeid_answers_cons n c q reqs :
  storeid_answers n c (q :: reqs)
  = (q.1, (1 + c, storeid_reply_of n (1 + c) q.2))
    :: storeid_answers (S n) (1 + c) reqs.
Proof.
  unfold storeid_answers. simpl. rewrite Nat.add_0_r.
  replace (c + 1 + Z.of_nat 0) with (1 + c) by lia. f_equal.
  apply imap_ext. intros i q' _. simpl.
  replace (n + S i)%nat with (S (n + i)) by lia.
  by replace (c + 1 + Z.of_nat (S i)) with (1 + c + 1 + Z.of_nat i) by lia.
Qed.

Lemma storeid_answers_ids n c reqs :
  (λ a, a.2.1) <$> storeid_answers n c reqs = issued c (length reqs).
Proof.
  unfold storeid_answers, issued. rewrite fmap_imap.
  by rewrite <- (imap_seq_0 reqs (λ i : nat, c + 1 + Z.of_nat i)).
Qed.

Lemma returned_ids w n c reqs :
  (λ a, a.2.1) <$> returned w (storeid_answers n c reqs)
  `sublist_of` issued c (length reqs).
Proof.
  rewrite <- (storeid_answers_ids n c reqs). apply fmap_sublist, sublist_filter.
Qed.

Lemma returned_all w n c reqs :
  Forall (λ q, writable w q.1 = true) reqs →
  returned w (storeid_answers n c reqs) = storeid_answers n c reqs.
Proof.
  revert n c. induction reqs as [|q reqs IH]; intros n c Hall; [done|].
  apply Forall_cons in Hall as [Hq Hall].
  rewrite storeid_answers_cons. unfold returned.
  rewrite filter_cons_True by done. f_equal. by apply IH.
Qed.

Lemma storeid_run reqs w k c :
  store_ids w !! k = Some c →
  Forall (λ q, store_key_of w q.1 = Some k ∧ is_storeid_request q.2) reqs →
  sent (run (deliveries reqs) w)
  = sent w ++ ((λ a, (a.1, a.2.2))
                 <$> returned w (storeid_answers (drawn w) c reqs))
  ∧ store_ids (run (deliveries reqs) w) !! k = Some (c + Z.of_nat (length reqs)).
Proof.
  revert w c. induction reqs as [|[h m] reqs IH]; intros w c Hi Hall.
  { simpl. rewrite app_nil_r, Z.add_0_r. done. }
  apply Forall_cons in Hall as [(Hk & env & Hl & Ht) Hall]. simpl in *.
  rewrite (on_message_storeid_any _ _ env _ k c) by done.
  rewrite storeid_answers_cons. unfold returned. simpl.
  destruct (writable w h) eqn:Hw.
  - rewrite filter_cons_True by done.
    destruct (IH (with_sent (.++ [(h, storeid_reply_of (drawn w) (1 + c) m)])
                   (with_drawn S (with_store_ids (<[k := 1 + c]>) w))) (1 + c))
      as [Hs Hc]; [simpl; by rewrite lookup_insert_eq | exact Hall |].
    rewrite Hs, Hc. simpl. split; [|f_equal; lia].
    by rewrite <- (assoc_L (++)).
  - rewrite filter_cons_False by (simpl; congruence).
    destruct (IH (with_drawn S (with_store_ids (<[k := 1 + c]>) w)) (1 + c))
      as [Hs Hc]; [simpl; by rewrite lookup_insert_eq | exact Hall |].
    unfold id. rewrite Hs, Hc. simpl. split; [done | f_equal; lia].
Qed.

(** C1: [open] gives a key that has no counter yet the counter 0 and
    leaves an existing counter alone.  With the counter of key [k] at
    [c], the [i]-th of [N] [storeid-request]s processed on sessions of
    [k] is allocated [c + 1 + i] and the counter ends at [c + N]; the
    replies go out in that order, to the sessions whose connection
    takes the write.  The ids returned are pairwise distinct, strictly
    increasing and all above [c]; they are [c + 1, ..., c + N] (the
    first is 1 when [c] is 0) when every reply goes out.  Whatever
    the process does next, the counter of [k] never goes back, so no
    id is handed out twice. *)
Theorem storeid_sequence reqs w k c :
  store_ids w !! k = Some c →
  Forall (λ q, store_key_of w q.1 = Some k ∧ is_storeid_request q.2) reqs →
  let w' := run (deliveries reqs) w in
  let got := returned w (storeid_answers (drawn w) c reqs) in
  let ids := (λ a, a.2.1) <$> got in
  sent w' = sent w ++ ((λ a, (a.1, a.2.2)) <$> got)
  ∧ store_ids w' !! k = Some (c + Z.of_nat (length reqs))
  ∧ StronglySorted Z.lt ids ∧ NoDup ids ∧ Forall (λ z, c < z) ids
  ∧ (Forall (λ q, writable w q.1 = true) reqs → ids = issued c (length reqs))
  ∧ (∀ evs, ∃ c', store_ids (run evs w') !! k = Some c'
                  ∧ c + Z.of_nat (length reqs) ≤ c')
  ∧ (∀ h a w0, is_Some (objs w0 !! h) →
       let k0 := match a with
                 | Some s => KStr s
                 | None => KUuid (uuid4 (drawn w0))
                 end in
       store_ids (open h a w0).2 !! k0
       = Some (default 0 (store_ids w0 !! k0))).
Proof.
  intros Hi Hall w' got ids.
  destruct (storeid_run reqs w k c Hi Hall) as [Hs Hc].
  pose proof (returned_ids w (drawn w) c reqs) as Hsub. fold got ids in Hsub.
  split; [done|]. split; [done|].
  split; [eapply StronglySorted_sublist; [exact Hsub | apply issued_sorted]|].
  split; [eapply sublist_NoDup; [apply issued_NoDup | exact Hsub]|].
  split.
  { apply Forall_forall. intros z Hz.
    pose proof (issued_above c (length reqs)) as Ha. rewrite Forall_forall in Ha.
    apply Ha. by eapply elem_of_sublist. }
  split.
  { intros Hwr. unfold ids, got. rewrite returned_all by done.
    apply storeid_answers_ids. }
  split.
  - intros evs. apply (g_ids _ _ (grows_run evs w')), Hc.
  - intros h a w0 Ho k0. rewrite open_eq by done. subst k0.
    destruct a as [s|]; simpl; [apply (opened_store_ids_eq h)|].
    apply (opened_store_ids_eq h _ (with_drawn S w0)).
Qed.

End sequence.


(** ** The properties at work on the sample worlds *)

Section examples.
#[local] Existing Instance sample.

Lemma two_keys_consistent : consistent two_keys.
Proof. apply consistent_run, consistent_boot. Qed.

Lemma one_down_consistent : consistent one_down.
Proof. apply consistent_run, consistent_boot. Qed.

Ltac compute_it := vm_compute; reflexivity.

Ltac each_peer Hp :=
  clear - Hp;
  repeat (apply elem_of_cons in Hp as [->|Hp]; [compute_it|]);
  by apply elem_of_nil in Hp.

(** Three requests on key [doc1], from sessions 0, 1 and 0 again, are
    answered 1, 2 and 3. *)
Lemma storeid_sequence_witness :
  (λ a, a.2.1) <$> returned two_keys
                     (storeid_answers (drawn two_keys) 0
                        [(0%nat, "m1"); (1%nat, "m1"); (0%nat, "m1")])
  = [1; 2; 3]
  ∧ store_ids (run (deliveries [(0%nat, "m1"); (1%nat, "m1"); (0%nat, "m1")]) two_keys)
      !! KStr "doc1" = Some 3.
Proof.
  destruct (storeid_sequence [(0%nat, "m1"); (1%nat, "m1"); (0%nat, "m1")] two_keys
              (KStr "doc1") 0) as (_ & Hc & _ & _ & _ & Hids & _).
  - compute_it.
  - repeat constructor; try compute_it;
      (exists (decoded "m1"); split; compute_it).
  - split; [|exact Hc]. rewrite Hids; [reflexivity|].
    repeat constructor.
Defined.

(** Session 0 appends [tx1; tx2]; session 1 then asks for the
    history. *)
Lemma append_in_order_witness :
  log_of (on_message 0 "m2" two_keys).2 (KStr "doc1") = Some [tx1; tx2]
  ∧ ∃ later,
      on_message 1 "m3" (on_message 0 "m2" two_keys).2
      = (Ok tt,
         with_sent (.++ [(1%nat, history_reply_of (decoded "m3")
                                   ([] ++ [tx1; tx2] ++ later)
                                   (on_message 0 "m2" two_keys).2)])
           (with_drawn S (on_message 0 "m2" two_keys).2)).
Proof.
  destruct (append_in_order 0 "m2" (decoded "m2")
              (list_to_map [("transactions", JArr [tx1; tx2])])
              [tx1; tx2] [JStr "tx1"; JStr "tx2"] two_keys (KStr "doc1") [])
    as (Hlog & _ & Hhist);
    [apply two_keys_consistent | compute_it..|].
  split; [exact Hlog|].
  destruct (Hhist [] 1%nat "m3" (decoded "m3")) as (later & _ & Hreply);
    [compute_it..|].
  exists later. exact Hreply.
Defined.


(** A [transaction-broadcast] with no [content] at all is dropped. *)
Lemma missing_content_is_dropped_witness :
  on_message 0 "m7" two_keys = (Ok tt, two_keys).
Proof.
  apply (missing_content_is_dropped 0 "m7" (decoded "m7")
           "transaction-broadcast" two_keys); [compute_it.. | | compute_it].
  by left.
Defined.

(** Closing session 1 of [doc1] leaves session 0. *)
Lemma close_removes_or_raises_witness :
  on_close 1 two_keys
  = (Ok tt, with_handlers (<[KStr "doc1" := peers 1 [0; 1]%nat]>) two_keys).
Proof.
  destruct (close_removes_or_raises 1 two_keys) as [_ Hclose];
    [by eexists|].
  destruct (Hclose (KStr "doc1") [0; 1]%nat) as [Hin _]; [compute_it.. | |].
  - apply (bool_decide_unpack _). by vm_compute.
  - destruct Hin as [Hok _]; [|exact Hok].
    apply (bool_decide_unpack _). by vm_compute.
Defined.


(** The reply to the [fetch-transaction-request] [m5]. *)
Lemma one_direct_reply_witness :
  ∃ (body : json) rest,
    sent (on_message 0 "m5" two_keys).2
    = sent two_keys
      ++ (0%nat, json_dumps (reply_envelope (uuid4 (drawn two_keys))
                               "fetch-transaction-reply"
                               (env_id (decoded "m5")) body)) :: rest
    ∧ Forall (λ p, p.1 ≠ 0%nat ∧ p.2 = "m5") rest
    ∧ ("fetch-transaction-request" ≠ "transaction-broadcast" → rest = [])
    ∧ drawn (on_message 0 "m5" two_keys).2 = S (drawn two_keys).
Proof.
  apply (one_direct_reply 0 "m5" (decoded "m5") "fetch-transaction-request"
           "fetch-transaction-reply" two_keys (KStr "doc1"));
    [apply two_keys_consistent | compute_it..].
Defined.

(** A [ping] changes nothing. *)
Lemma unknown_type_is_noop_witness :
  on_message 2 "m8" two_keys = (Ok tt, two_keys).
Proof.
  apply (unknown_type_is_noop 2 "m8" (decoded "m8") two_keys); compute_it.
Defined.

(** Peer 1 of [doc1] is down: the broadcast of session 0 stops there. *)
Lemma broadcast_stops_at_failure_witness :
  (on_message 0 "m2" one_down).1 = Raise WebSocketClosedError
  ∧ sent (on_message 0 "m2" one_down).2
    = sent one_down
      ++ (0%nat, ack_of (decoded "m2") [JStr "tx1"; JStr "tx2"] one_down)
         :: to_peers "m2" (peers 0 [0%nat]).
Proof.
  apply (broadcast_stops_at_failure 0 "m2" (decoded "m2")
           (list_to_map [("transactions", JArr [tx1; tx2])])
           [tx1; tx2] [JStr "tx1"; JStr "tx2"] one_down (KStr "doc1")
           [0%nat] 1%nat [2%nat]);
    [apply one_down_consistent | compute_it.. | | done | compute_it].
  intros q Hq Hne. each_peer Hq.
Defined.

(** [m4] and [m6] carry a [content] object with no list in it. *)
Lemma missing_list_is_empty_witness :
  on_message 0 "m4" two_keys
  = (Ok tt,
     with_sent (.++ (0%nat, ack_of (decoded "m4") [] two_keys)
                    :: to_peers "m4" (peers 0 [0; 1]%nat))
       (with_drawn S two_keys))
  ∧ on_message 0 "m6" two_keys
    = (Ok tt,
       with_sent (.++ [(0%nat, fetch_reply_of (decoded "m6") [] two_keys)])
         (with_drawn S two_keys)).
Proof.
  split.
  - destruct (missing_list_is_empty 0 "m4" (decoded "m4") ∅ two_keys
                (KStr "doc1") [0; 1]%nat) as [Hack _];
      [apply two_keys_consistent | compute_it..|].
    apply Hack; [compute_it.. |].
    intros p Hp Hne. each_peer Hp.
  - destruct (missing_list_is_empty 0 "m6" (decoded "m6") ∅ two_keys
                (KStr "doc1") [0; 1]%nat) as [_ Hfetch];
      [apply two_keys_consistent | compute_it..|].
    apply Hfetch; compute_it.
Defined.

(** C4, refuted as stated: [m4] is a [transaction-broadcast] whose
    [content] lacks the required [transactions] key, yet session 0
    gets an ack and its peer, session 1, gets the broadcast. *)
Lemma content_without_list_is_answered :
  sample_loads "m4" = Some (JObj (decoded "m4"))
  ∧ env_type (decoded "m4") = JStr "transaction-broadcast"
  ∧ decoded "m4" !! "content" = Some (JObj ∅)
  ∧ sent (on_message 0 "m4" two_keys).2 ≠ sent two_keys
  ∧ sent two_keys = []
  ∧ sent (on_message 0 "m4" two_keys).2
    = [(0%nat, ack_of (decoded "m4") [] two_keys); (1%nat, "m4")].
Proof.
  repeat split; try compute_it. intros H. vm_compute in H. discriminate H.
Qed.

(** C5, refuted as stated: closing a session a second time raises
    [ValueError], and closing one that was never opened raises
    [AttributeError]. *)
Lemma closing_absent_session_raises :
  store_key_of closed_once 0 = Some (KStr "doc1")
  ∧ handlers closed_once !! KStr "doc1" = Some []
  ∧ (on_close 0 closed_once).1 ≠ Ok tt
  ∧ on_close 0 closed_once = (Raise ValueError, closed_once)
  ∧ on_close 0 (run [Connect] boot)
    = (Raise AttributeError, run [Connect] boot).
Proof.
  repeat split; try compute_it. intros H. vm_compute in H. discriminate H.
Qed.


(** C9, refuted as stated: with peer 1 down, peer 2, whose connection
    is fine, gets nothing, and the exception reaches the sender. *)
Lemma failed_peer_is_not_isolated :
  handlers one_down !! KStr "doc1" = Some [0; 1; 2]%nat
  ∧ writable one_down 1 = false
  ∧ writable one_down 2 = true
  ∧ ((2%nat, "m2") ∉ sent (on_message 0 "m2" one_down).2)
  ∧ (on_message 0 "m2" one_down).1 ≠ Ok tt
  ∧ (on_message 0 "m2" one_down).1 = Raise WebSocketClosedError
  ∧ sent (on_message 0 "m2" one_down).2
    = [(0%nat, ack_of (decoded "m2") [JStr "tx1"; JStr "tx2"] one_down)].
Proof.
  repeat split; try compute_it.
  - apply (bool_decide_unpack _). by vm_compute.
  - intros H. vm_compute in H. discriminate H.
Qed.

End examples.

(** * Further properties of the handler *)

(** ** What a message puts on the wire *)

Lemma allowed_same self message w w' :
  objs w' = objs w → handlers w' = handlers w →
  ∀ qm, allowed self message w' qm ↔ allowed self message w qm.
Proof.
  intros Ho Hh qm. unfold allowed, store_key_of. by rewrite Ho, Hh.
Qed.

#[global] Instance emits_preorder self message : PreOrder (emits self message).
Proof.
  split.
  - intros w. split; try done.
    + exists []. by rewrite app_nil_r.
    + intros k c Hc. exists c. split; [done | lia].
  - intros w1 w2 w3 H12 H23. split.
    + by rewrite (e_objs _ _ _ _ H23), (e_objs _ _ _ _ H12).
    + by rewrite (e_handlers _ _ _ _ H23), (e_handlers _ _ _ _ H12).
    + destruct (e_sent _ _ _ _ H12) as (out1 & Hs1 & Ha1).
      destruct (e_sent _ _ _ _ H23) as (out2 & Hs2 & Ha2).
      exists (out1 ++ out2). split; [by rewrite Hs2, Hs1, (assoc_L (++))|].
      apply Forall_app. split; [done|].
      eapply Forall_impl; [exact Ha2|]. intros qm Hq.
      by apply (allowed_same self message w1 w2
                  (e_objs _ _ _ _ H12) (e_handlers _ _ _ _ H12)).
    + intros k c3 Hc3. destruct (e_ids _ _ _ _ H23 k c3 Hc3) as (c2 & Hc2 & ?).
      destruct (e_ids _ _ _ _ H12 k c2 Hc2) as (c1 & Hc1 & ?).
      exists c1. split; [done | lia].
Qed.

Lemma emits_quiet self message w w' :
  objs w' = objs w → handlers w' = handlers w → sent w' = sent w →
  store_ids w' = store_ids w → emits self message w w'.
Proof.
  intros Ho Hh Hs Hi. split; try done.
  - exists []. by rewrite app_nil_r.
  - intros k c. rewrite Hi. intros Hc. exists c. split; [done | lia].
Qed.

Lemma emits_uuid `{RT : Runtime} self message :
  preserves (emits self message) uuid_uuid4.
Proof. intros w. by apply emits_quiet. Qed.

Lemma emits_add_transactions self message r transactions :
  preserves (emits self message) (db_add_transactions r transactions).
Proof.
  unfold db_add_transactions.
  apply preserves_bind; [tc_solve | pres | intros d].
  apply preserves_bind; [tc_solve | pres | intros ts].
  apply preserves_modify. intros w. by apply emits_quiet.
Qed.

Lemma emits_write_self self message text :
  preserves (emits self message) (write_message self text).
Proof.
  unfold write_message. apply preserves_bind; [tc_solve | pres | intros o].
  destruct (ws_connection o); [|pres].
  apply preserves_modify. intros w. split; try done.
  - exists [(self, text)]. split; [done|]. apply Forall_singleton. by left.
  - intros k c Hc. exists c. split; [done | lia].
Qed.

Lemma emits_create_store_id self message :
  preserves (emits self message) (create_store_id self).
Proof.
  intros w. unfold create_store_id.
  destruct (store_key_of w self) as [k|] eqn:Hk.
  - rewrite (bind_ok _ _ _ _ _ (self_store_key_eq _ _ _ Hk)). mred.
    destruct (store_ids w !! k) as [c|] eqn:Hc; mred; [|reflexivity].
    rewrite lookup_insert_eq. simpl. split; simpl; try done.
    + exists []. by rewrite app_nil_r.
    + intros k' c'. destruct (decide (k' = k)) as [->|].
      * rewrite lookup_insert_eq. intros [= <-]. exists c. split; [done | lia].
      * rewrite lookup_insert_ne by done. intros Hc'. exists c'. split; [done | lia].
  - rewrite (bind_raise _ _ _ _ _ (self_store_key_unset _ _ Hk)). reflexivity.
Qed.

Lemma emits_broadcast self message :
  preserves (emits self message) (broadcast self message).
Proof.
  intros w. destruct (store_key_of w self) as [k|] eqn:Hk; last first.
  { unfold broadcast.
    rewrite (bind_raise _ _ _ _ _ (self_store_key_unset _ _ Hk)). reflexivity. }
  destruct (handlers w !! k) as [l|] eqn:Hl; last first.
  { unfold broadcast. rewrite (bind_ok _ _ _ _ _ (self_store_key_eq _ _ _ Hk)).
    mred. rewrite Hl. reflexivity. }
  rewrite (broadcast_unfold _ _ _ _ _ Hk Hl).
  destruct (deliver_some self message l w) as (l' & [l'' Hl'] & ->).
  split; simpl; try done.
  - exists (to_peers message l'). split; [done|].
    apply Forall_fmap, Forall_forall. intros p Hp. right. simpl.
    assert (p ∈ peers self l) as [? ?]%peers_spec
      by (rewrite Hl'; apply elem_of_app; by left).
    split; [done|]. split; [done|]. by exists k, l.
  - intros k' c Hc. exists c. split; [done | lia].
Qed.

#[global] Hint Resolve emits_uuid emits_add_transactions emits_write_self
  emits_create_store_id emits_broadcast : pres.

Section wire.
Context `{RT : Runtime}.

Lemma emits_create_storeid_reply self message parent_id store_id :
  preserves (emits self message) (create_storeid_reply parent_id store_id).
Proof. unfold create_storeid_reply. pres. Qed.

Lemma emits_create_transactions_ack self message parent_id transactions :
  preserves (emits self message)
    (create_transactions_ack parent_id transactions).
Proof. unfold create_transactions_ack. pres. Qed.

Lemma emits_create_history_reply self message parent_id transactions :
  preserves (emits self message) (create_history_reply parent_id transactions).
Proof. unfold create_history_reply. pres. Qed.

Lemma emits_create_fetch_reply self message parent_id transactions :
  preserves (emits self message) (create_fetch_reply parent_id transactions).
Proof. unfold create_fetch_reply. pres. Qed.

Hint Resolve emits_create_storeid_reply emits_create_transactions_ack
  emits_create_history_reply emits_create_fetch_reply : pres.

Lemma emits_on_message self message :
  preserves (emits self message) (on_message self message).
Proof.
  unfold on_message.
  apply preserves_bind; [tc_solve | pres | intros msg].
  apply preserves_bind; [tc_solve | pres | intros [msg_type msg1]].
  apply preserves_bind; [tc_solve | pres | intros [msg_id msg2]].
  destruct (py_eq_str msg_type "transaction-broadcast"); [|pres].
  apply preserves_bind; [tc_solve | pres | intros [content msg3]].
  destruct (is_none content); pres.
Qed.

End wire.


(** ** Helper facts *)

Lemma on_close_cases `{RT : Runtime} self w :
  (∃ e, on_close self w = (Raise e, w))
  ∨ ∃ k l l', store_key_of w self = Some k ∧ handlers w !! k = Some l
              ∧ list_remove self l = Some l'
              ∧ on_close self w = (Ok tt, with_handlers (<[k := l']>) w).
Proof.
  destruct (store_key_of w self) as [k|] eqn:Hk;
    [|left; exists AttributeError; by apply on_close_unopened].
  destruct (handlers w !! k) as [l|] eqn:Hl.
  - rewrite (on_close_eq _ _ _ _ Hk Hl).
    destruct (list_remove self l) as [l'|] eqn:Hrm; [|left; by eexists].
    right. by exists k, l, l'.
  - left. exists KeyError. unfold on_close. rewrite bind_unfold.
    rewrite decide_False by (intros H; by apply H). cbn [mret M_ret].
    rewrite (bind_ok _ _ _ _ _ (self_store_key_eq _ _ _ Hk)). mred.
    by rewrite Hl.
Qed.

Lemma opened_writable h k w h' : writable (opened h k w) h' = writable w h'.
Proof.
  unfold writable, opened. simpl. destruct (decide (h = h')) as [->|].
  - rewrite !list_lookup_alter_eq. by destruct (objs w !! h').
  - by rewrite !list_lookup_alter_ne.
Qed.

Lemma opened_handlers_eq h k w :
  handlers (opened h k w) !! k = Some (default [] (handlers w !! k) ++ [h]).
Proof. unfold opened. simpl. by rewrite lookup_insert_eq. Qed.

Lemma opened_log h k w :
  consistent w →
  log_of (opened h k w) k = Some (default [] (log_of w k)).
Proof.
  intros Hc. unfold log_of. rewrite opened_stores_eq. simpl.
  unfold log_ref, opened. simpl.
  destruct (stores w !! k) as [r|] eqn:Hr; simpl.
  - destruct (c_dbs _ Hc _ _ Hr) as [d ->]. done.
  - by rewrite lookup_app_r, Nat.sub_diag.
Qed.

Lemma counters_nonneg_step `{RT : Runtime} ev w :
  counters_nonneg w → counters_nonneg (step ev w).2.
Proof.
  intros Hn. destruct ev as [|h a|h m|h|h]; simpl; try done.
  - destruct (unopened w h) eqn:Hu; [|done].
    apply unopened_spec in Hu as [Ho Hu]. rewrite open_eq by done.
    assert (∀ k0 w0, counters_nonneg w0 → counters_nonneg (opened h k0 w0)) as Hop.
    { intros k0 w0 Hn0 k c. unfold opened. simpl.
      destruct (store_ids w0 !! k0) eqn:Hk0; [apply Hn0|].
      destruct (decide (k = k0)) as [->|].
      - rewrite lookup_insert_eq. by intros [= <-].
      - rewrite lookup_insert_ne by done. apply Hn0. }
    destruct a; simpl; by apply Hop.
  - intros k c' Hc'.
    destruct (e_ids _ _ _ _ (emits_on_message h m w) k c' Hc') as (c & Hc & ?).
    apply Hn in Hc. lia.
  - destruct (on_close_cases h w) as [[e ->] | (k & l & l' & _ & _ & _ & ->)]; done.
Qed.

Lemma counters_nonneg_run `{RT : Runtime} evs w :
  counters_nonneg w → counters_nonneg (run evs w).
Proof.
  revert w. induction evs as [|ev evs IH]; intros w Hn; [done|].
  apply IH. by apply counters_nonneg_step.
Qed.

Ltac into_branch env Hl Ht :=
  unfold on_message; rewrite bind_unfold, Hl; cbn [from_opt mret M_ret];
  do 2 (rewrite bind_unfold; cbn [py_pop mret M_ret]);
  rewrite ?env_id_pop; fold (env_type env); rewrite Ht.

Section further.
Context `{RT : Runtime}.

Implicit Types (w : World) (env content : gmap string json).

(** X1: whatever the sequence of connections, opens, messages, hangups
    and closes since the process started, the invariant holds: every
    bound session has a counter, a session list and, as [self.db], the
    log registered for its key; no two keys share a log; a session list
    holds only sessions bound to its key, each once. *)
Theorem reachable_consistent evs : consistent (run evs boot).
Proof. apply consistent_run, consistent_boot. Qed.

(** X2: whatever the sequence of connections, opens, messages,
    hangups and closes since the process started, two bound sessions
    have the same log object as [self.db] exactly when they are bound
    to the same key: [open] hands the log of a key to every session
    that joins it and builds a new one only for a key that has none. *)
Theorem same_key_same_log evs h1 h2 k1 k2 :
  let w := run evs boot in
  store_key_of w h1 = Some k1 → store_key_of w h2 = Some k2 →
  db_of w h1 = db_of w h2 ↔ k1 = k2.
Proof.
  intros w H1 H2.
  assert (Hc : consistent w) by apply consistent_run, consistent_boot.
  destruct (c_bound _ Hc _ _ H1) as (_ & _ & r1 & Hr1 & ->).
  destruct (c_bound _ Hc _ _ H2) as (_ & _ & r2 & Hr2 & ->).
  split.
  - intros [= ->]. by apply (c_inj _ Hc k1 k2 r2).
  - intros ->. rewrite Hr1 in Hr2. by injection Hr2 as ->.
Qed.

(** X3: processing a message, whatever it is, never registers or
    deregisters a session, never changes an attribute of a handler,
    never gives a key another log and never creates or drops a log. *)
Theorem messages_leave_registry self message w :
  let w' := (on_message self message w).2 in
  objs w' = objs w ∧ stores w' = stores w ∧ handlers w' = handlers w
  ∧ length (dbs w') = length (dbs w).
Proof.
  intros w'. pose proof (affects_on_message self message w) as Ha.
  split; [apply (a_objs _ _ _ Ha)|]. split; [apply (a_stores _ _ _ Ha)|].
  split; [apply (a_handlers _ _ _ Ha) | apply (a_dbs_length _ _ _ Ha)].
Qed.

(** X4: whatever the message and the state, everything [on_message]
    writes is written either to the session that received the message
    or, unchanged, to another session out of the list of that
    session's key. *)
Theorem writes_go_to_self_and_peers self message w :
  ∃ out,
    sent (on_message self message w).2 = sent w ++ out
    ∧ Forall (λ qm, qm.1 = self
                    ∨ (qm.2 = message ∧ qm.1 ≠ self
                       ∧ ∃ k l, store_key_of w self = Some k
                                ∧ handlers w !! k = Some l ∧ qm.1 ∈ l)) out.
Proof. apply (e_sent _ _ _ _ (emits_on_message self message w)). Qed.

(** X5: nothing a session does reaches a session bound to another
    key: a message processed by [self] writes nothing to a session [q]
    bound to a key that is not [self]'s. *)
Theorem wire_stays_within_key self message w q kq :
  consistent w → store_key_of w q = Some kq → store_key_of w self ≠ Some kq →
  ∃ out,
    sent (on_message self message w).2 = sent w ++ out
    ∧ ∀ m, (q, m) ∉ out.
Proof.
  intros Hc Hq Hne.
  destruct (e_sent _ _ _ _ (emits_on_message self message w)) as (out & Hs & Ha).
  exists out. split; [done|]. intros m Hin.
  rewrite Forall_forall in Ha. destruct (Ha _ Hin) as [Heq | (_ & _ & k & l & Hk & Hl & Hql)];
    simpl in *.
  - subst q. by rewrite Hq in Hne.
  - rewrite (c_reg _ Hc _ _ _ Hl Hql) in Hq. injection Hq as <-. by rewrite Hk in Hne.
Qed.

(** X6: once [on_close] has removed a session from its key's list, no
    message processed by another session writes to it. *)
Theorem closed_session_gets_nothing p self message w k l :
  consistent w → store_key_of w p = Some k → handlers w !! k = Some l →
  p ∈ l → self ≠ p →
  let w1 := (on_close p w).2 in
  (on_close p w).1 = Ok tt
  ∧ ∃ out,
      sent (on_message self message w1).2 = sent w1 ++ out
      ∧ ∀ m, (p, m) ∉ out.
Proof.
  intros Hc Hp Hl Hin Hne w1. subst w1. rewrite (on_close_eq _ _ _ _ Hp Hl).
  destruct (list_remove p l) as [l'|] eqn:Hrm;
    [|by apply list_remove_None in Hrm].
  apply list_remove_Some in Hrm as (_ & _ & ->); [|by apply (c_nodup _ Hc k)].
  simpl. split; [done|].
  destruct (e_sent _ _ _ _ (emits_on_message self message
              (with_handlers (<[k := peers p l]>) w))) as (out & Hs & Ha).
  exists out. split; [done|]. intros m Hm.
  rewrite Forall_forall in Ha.
  destruct (Ha _ Hm) as [Heq | (_ & _ & k' & l0 & Hk' & Hl0 & Hpl)]; simpl in *.
  - by subst p.
  - destruct (decide (k' = k)) as [->|Hkk].
    + rewrite lookup_insert_eq in Hl0. injection Hl0 as <-.
      apply peers_spec in Hpl as [_ ?]. done.
    + rewrite lookup_insert_ne in Hl0 by done.
      pose proof (c_reg _ Hc _ _ _ Hl0 Hpl) as Hp'. congruence.
Qed.

(** X7: the counter of a key moves only when a session of that key
    asks: messages processed by sessions that are not bound to [k],
    however many and whatever they are, leave the counter of [k] as it
    was. *)
Theorem counter_isolation reqs w k :
  Forall (λ q, store_key_of w q.1 ≠ Some k) reqs →
  store_ids (run (deliveries reqs) w) !! k = store_ids w !! k.
Proof.
  revert w. induction reqs as [|[h m] reqs IH]; intros w Hall; [done|].
  apply Forall_cons in Hall as [Hh Hall]. simpl in *.
  pose proof (affects_on_message h m w) as Ha.
  rewrite IH.
  - by apply (a_ids_other _ _ _ Ha).
  - eapply Forall_impl; [exact Hall|]. intros q. unfold store_key_of.
    by rewrite (a_objs _ _ _ Ha).
Qed.

(** X8: in every state the process can reach no counter is negative,
    and a [storeid-request] on a session whose connection takes the
    write is answered with a store id that is at least 1, which becomes
    the counter of the key.  The first id of a key is 1: when a
    session opens under a key that has no counter yet, its
    [storeid-request] is answered with 1. *)
Theorem store_ids_start_at_one evs message env :
  let w := run evs boot in
  json_loads message = Some (JObj env) →
  env_type env = JStr "storeid-request" →
  (∀ k c, store_ids w !! k = Some c → 0 ≤ c)
  ∧ (∀ self k,
       store_key_of w self = Some k → writable w self = true →
       ∃ store_id,
         1 ≤ store_id
         ∧ on_message self message w
           = (Ok tt,
              with_sent (.++ [(self, storeid_reply_of (drawn w) store_id
                                       message)])
                (with_drawn S (with_store_ids (<[k := store_id]>) w))))
  ∧ (∀ h s,
       is_Some (objs w !! h) → writable w h = true →
       store_ids w !! KStr s = None →
       let w1 := (open h (Some s) w).2 in
       on_message h message w1
       = (Ok tt,
          with_sent (.++ [(h, storeid_reply_of (drawn w1) 1 message)])
            (with_drawn S (with_store_ids (<[KStr s := 1]>) w1)))).
Proof.
  intros w Hl Ht.
  pose proof (counters_nonneg_run evs boot) as Hn. fold w in Hn.
  split; [apply Hn; by intros ??|]. split.
  - intros self k Hk Hw.
    destruct (consistent_session w self k)
      as (_ & _ & c & _ & _ & _ & _ & _ & Hc & _);
      [apply consistent_run, consistent_boot | done |].
    exists (1 + c). split; [apply Hn in Hc; [lia | by intros ??]|].
    rewrite (on_message_storeid _ _ env _ k c) by done.
    unfold storeid_reply_of, request_id. by rewrite Hl.
  - intros h s Ho Hw Hnone w1.
    assert (Hw1 : w1 = opened h (KStr s) w) by (subst w1; by rewrite open_eq).
    clearbody w1. subst w1.
    rewrite (on_message_storeid _ _ env _ (KStr s) 0); [| done | done | | |].
    + unfold storeid_reply_of, request_id. by rewrite Hl.
    + rewrite opened_store_key by done. by rewrite decide_True.
    + by rewrite opened_writable.
    + by rewrite opened_store_ids_eq, Hnone.
Qed.



Lemma map_each_fails ts w :
  tx_ids ts = None →
  ∃ e, (e = KeyError ∨ e = TypeError)
       ∧ map_each (λ t, py_getitem t "id") ts w = (Raise e, w).
Proof.
  induction ts as [|t ts IH]; intros Hts; simpl in Hts; [done|].
  destruct (tx_id t) as [i|] eqn:Hi.
  - destruct (tx_ids ts) as [ids|]; [done|].
    destruct (IH eq_refl) as (e & He & Hm). exists e. split; [done|].
    destruct t; try done. simpl in Hi. mred. rewrite Hi. mred. by rewrite Hm.
  - destruct t; simpl in Hi;
      try (exists TypeError; split; [by right | reflexivity]).
    exists KeyError. split; [by left|]. mred. by rewrite Hi.
Qed.

Lemma create_ack_fails parent_id ts w :
  tx_ids ts = None →
  ∃ e, (e = KeyError ∨ e = TypeError)
       ∧ create_transactions_ack parent_id (JArr ts) w
         = (Raise e, with_drawn S w).
Proof.
  intros Hts. destruct (map_each_fails ts (with_drawn S w) Hts) as (e & He & Hm).
  exists e. split; [done|]. unfold create_transactions_ack, uuid_uuid4.
  rewrite !bind_unfold. cbn [py_iter mret M_ret].
  by rewrite bind_unfold, Hm.
Qed.

Lemma create_ack_ok parent_id ts ids w :
  tx_ids ts = Some ids →
  create_transactions_ack parent_id (JArr ts) w
  = (Ok (reply_envelope (uuid4 (drawn w)) "transaction-ack" parent_id
           (py_dict [("transactionIds", JArr ids)])),
     with_drawn S w).
Proof.
  intros Hts. unfold create_transactions_ack, uuid_uuid4.
  rewrite !bind_unfold. cbn [py_iter mret M_ret].
  by rewrite bind_unfold, (map_each_ids _ _ _ Hts).
Qed.

(** X9: a [storeid-request] on a session whose connection is closed
    still takes an id: the counter goes up, nothing is written and
    [WebSocketClosedError] is raised.  The id is lost: the next
    request on the key, from a session that can be written to, is
    answered with the id after it. *)
Theorem store_id_lost_on_closed_connection self message env w k c :
  store_key_of w self = Some k → store_ids w !! k = Some c →
  writable w self = false →
  json_loads message = Some (JObj env) →
  env_type env = JStr "storeid-request" →
  let w' := with_drawn S (with_store_ids (<[k := 1 + c]>) w) in
  on_message self message w = (Raise WebSocketClosedError, w')
  ∧ ∀ self' message' env',
      store_key_of w self' = Some k → writable w self' = true →
      json_loads message' = Some (JObj env') →
      env_type env' = JStr "storeid-request" →
      on_message self' message' w'
      = (Ok tt,
         with_sent (.++ [(self', storeid_reply_of (drawn w') (1 + (1 + c))
                                   message')])
           (with_drawn S (with_store_ids (<[k := 1 + (1 + c)]>) w'))).
Proof.
  intros Hk Hc Hw Hl Ht w'. split.
  - apply store_key_of_Some in Hk as Hk'. destruct Hk' as (o & Ho & _).
    unfold writable in Hw. rewrite Ho in Hw.
    into_branch env Hl Ht. simpl.
    rewrite (bind_ok _ _ _ _ _ (create_store_id_eq _ _ _ _ Hk Hc)).
    unfold create_storeid_reply, uuid_uuid4. rewrite !bind_unfold. simpl.
    by rewrite (write_message_closed _ _ o).
  - intros self' message' env' Hk' Hw' Hl' Ht'.
    rewrite (on_message_storeid _ _ env' _ k (1 + c));
      [|done..|subst w'; simpl; by rewrite lookup_insert_eq].
    unfold storeid_reply_of, request_id. by rewrite Hl'.
Qed.


(** X11: the ack builder lists the [id] of every transaction, in
    order, or raises: [KeyError] or [TypeError] as soon as one
    transaction has no [id] or is not an object.  It draws its uuid
    first, so the draw is made either way. *)
Theorem ack_lists_every_id_or_raises parent_id ts w :
  match tx_ids ts with
  | Some ids =>
      create_transactions_ack parent_id (JArr ts) w
      = (Ok (reply_envelope (uuid4 (drawn w)) "transaction-ack" parent_id
               (py_dict [("transactionIds", JArr ids)])),
         with_drawn S w)
  | None =>
      ∃ e, (e = KeyError ∨ e = TypeError)
           ∧ create_transactions_ack parent_id (JArr ts) w
             = (Raise e, with_drawn S w)
  end.
Proof.
  destruct (tx_ids ts) as [ids|] eqn:Hts;
    [by apply create_ack_ok | by apply create_ack_fails].
Qed.

(** X12: a session that opens under a key is put at the end of the
    key's list, so the next [transaction-broadcast] of a session
    already there is forwarded to it, after the earlier peers. *)
Theorem joiner_receives_broadcast h s self message env content ts ids w l :
  consistent w →
  is_Some (objs w !! h) → store_key_of w h = None → writable w h = true →
  store_key_of w self = Some (KStr s) → writable w self = true →
  handlers w !! KStr s = Some l →
  (∀ p, p ∈ l → p ≠ self → writable w p = true) →
  json_loads message = Some (JObj env) →
  env_type env = JStr "transaction-broadcast" →
  env !! "content" = Some (JObj content) →
  default (JArr []) (content !! "transactions") = JArr ts →
  tx_ids ts = Some ids →
  let w1 := (open h (Some s) w).2 in
  handlers w1 !! KStr s = Some (l ++ [h])
  ∧ (on_message self message w1).1 = Ok tt
  ∧ sent (on_message self message w1).2
    = sent w ++ (self, ack_of env ids w1)
               :: to_peers message (peers self l ++ [h]).
Proof.
  intros Hc Ho Hu Hwh Hk Hw Hl Hp Hld Ht Hco Hts Hids w1.
  assert (Hne : h ≠ self) by (intros ->; by rewrite Hk in Hu).
  assert (Hw1 : w1 = opened h (KStr s) w) by (subst w1; by rewrite open_eq).
  clearbody w1. subst w1.
  assert (Hc1 : consistent (opened h (KStr s) w)) by by apply opened_consistent.
  assert (Hk1 : store_key_of (opened h (KStr s) w) self = Some (KStr s)).
  { rewrite opened_store_key by done. by rewrite decide_False. }
  assert (Hl1 : handlers (opened h (KStr s) w) !! KStr s = Some (l ++ [h])).
  { rewrite opened_handlers_eq. by rewrite Hl. }
  split; [done|].
  destruct (consistent_session _ _ _ Hc1 Hk1)
    as (r & d & c & l0 & _ & Hr & Hd & _).
  rewrite (on_message_transactions _ _ _ content ts ids _ (KStr s) r d (l ++ [h]))
    by (try done; by rewrite opened_writable).
  rewrite deliver_all.
  - simpl. split; [done|]. rewrite <- (assoc_L (++)). simpl.
    unfold peers. rewrite filter_app, filter_cons_True, filter_nil by done.
    done.
  - intros p Hin Hps. change (writable (opened h (KStr s) w) p = true).
    rewrite opened_writable. apply elem_of_app in Hin as [Hin | Hin].
    + by apply Hp.
    + by apply list_elem_of_singleton in Hin as ->.
Qed.

(** X13: a session that opens under a key is attached to the log the
    key already has: its [history-request] is answered with everything
    appended under that key before it opened, or with nothing when the
    key is new. *)
Theorem joiner_sees_history h s message env w :
  consistent w →
  is_Some (objs w !! h) → store_key_of w h = None → writable w h = true →
  json_loads message = Some (JObj env) →
  env_type env = JStr "history-request" →
  let w1 := (open h (Some s) w).2 in
  log_of w1 (KStr s) = Some (default [] (log_of w (KStr s)))
  ∧ on_message h message w1
    = (Ok tt,
       with_sent (.++ [(h, history_reply_of env
                             (default [] (log_of w (KStr s))) w1)])
         (with_drawn S w1)).
Proof.
  intros Hc Ho Hu Hw Hl Ht w1.
  assert (Hw1 : w1 = opened h (KStr s) w) by (subst w1; by rewrite open_eq).
  clearbody w1. subst w1.
  pose proof (opened_log h (KStr s) w Hc) as Hlog. split; [done|].
  apply history_by_key with (KStr s); try done.
  - by apply opened_consistent.
  - rewrite opened_store_key by done. by rewrite decide_True.
  - by rewrite opened_writable.
Qed.

(** X14: a session opened with no key is bound to the uuid drawn for
    it.  When no session list exists for that uuid, the session is
    alone in its list, and whatever it is sent, nothing is written to
    any other session. *)
Theorem keyless_session_is_alone h message w :
  is_Some (objs w !! h) →
  handlers w !! KUuid (uuid4 (drawn w)) = None →
  let k := KUuid (uuid4 (drawn w)) in
  let w1 := (open h None w).2 in
  store_key_of w1 h = Some k
  ∧ handlers w1 !! k = Some [h]
  ∧ drawn w1 = S (drawn w)
  ∧ ∃ out,
      sent (on_message h message w1).2 = sent w1 ++ out
      ∧ Forall (λ qm, qm.1 = h) out.
Proof.
  intros Ho Hfresh k w1.
  assert (Hw1 : w1 = opened h k (with_drawn S w)) by (subst w1; by rewrite open_eq).
  clearbody w1. subst w1.
  assert (Hk1 : store_key_of (opened h k (with_drawn S w)) h = Some k).
  { rewrite opened_store_key by done. by rewrite decide_True. }
  assert (Hl1 : handlers (opened h k (with_drawn S w)) !! k = Some [h]).
  { rewrite opened_handlers_eq. simpl. fold k in Hfresh. by rewrite Hfresh. }
  split; [done|]. split; [done|]. split; [done|].
  destruct (e_sent _ _ _ _ (emits_on_message h message
              (opened h k (with_drawn S w)))) as (out & Hs & Ha).
  exists out. split; [done|].
  eapply Forall_impl; [exact Ha|].
  intros qm [Heq | (_ & Hne & k' & l' & Hk' & Hl' & Hin)]; [done|].
  rewrite Hk1 in Hk'. injection Hk' as <-. rewrite Hl1 in Hl'.
  injection Hl' as <-. by apply list_elem_of_singleton in Hin.
Qed.

(** X15: a key keeps its log for the life of the process: whatever
    happens after a key got its log, sessions closing and opening
    included, every session bound to the key has that log as
    [self.db]. *)
Theorem same_log_forever evs w k r h :
  consistent w → stores w !! k = Some r →
  store_key_of (run evs w) h = Some k →
  stores (run evs w) !! k = Some r ∧ db_of (run evs w) h = Some r.
Proof.
  intros Hc Hr Hk.
  pose proof (g_stores _ _ (grows_run evs w) _ _ Hr) as Hr'.
  split; [done|].
  destruct (c_bound _ (consistent_run evs w Hc) _ _ Hk) as (_ & _ & r' & Hr'' & ->).
  by rewrite Hr' in Hr''.
Qed.

(** X16: [on_close] touches nothing but the session list of the
    closing session's key: counters, logs, handler attributes, the
    wire and the lists of the other keys are as before, also when it
    raises. *)
Theorem close_touches_only_its_list self w :
  let w' := (on_close self w).2 in
  store_ids w' = store_ids w ∧ stores w' = stores w ∧ dbs w' = dbs w
  ∧ objs w' = objs w ∧ sent w' = sent w ∧ drawn w' = drawn w
  ∧ ∀ k, store_key_of w self ≠ Some k → handlers w' !! k = handlers w !! k.
Proof.
  intros w'. subst w'.
  destruct (on_close_cases self w) as [[e ->] | (k & l & l' & Hk & _ & _ & ->)];
    simpl; repeat (split; [done|]); [done|].
  intros k' Hne. rewrite lookup_insert_ne; [done|]. intros ->. by rewrite Hk in Hne.
Qed.

(** X17: closing a session loses nothing of its key: a session that
    opens under the key afterwards finds the counter where it was and
    is attached to the same log. *)
Theorem reconnect_keeps_state h h' s w c old :
  consistent w →
  store_key_of w h = Some (KStr s) →
  store_ids w !! KStr s = Some c → log_of w (KStr s) = Some old →
  is_Some (objs w !! h') → store_key_of w h' = None →
  let w1 := (on_close h w).2 in
  let w2 := (open h' (Some s) w1).2 in
  store_key_of w2 h' = Some (KStr s)
  ∧ store_ids w2 !! KStr s = Some c
  ∧ log_of w2 (KStr s) = Some old
  ∧ db_of w2 h' = db_of w h.
Proof.
  intros Hc Hk Hi Hlog Ho Hu w1 w2.
  assert (Hc1 : consistent w1) by by apply consistent_on_close.
  assert (Hf : store_ids w1 = store_ids w ∧ stores w1 = stores w
               ∧ dbs w1 = dbs w ∧ objs w1 = objs w).
  { subst w1.
    destruct (on_close_cases h w) as [[e ->] | (k0 & l & l' & _ & _ & _ & ->)];
      done. }
  destruct Hf as (Hi1 & Hs1 & Hd1 & Ho1). clearbody w1.
  assert (Hw2 : w2 = opened h' (KStr s) w1)
    by (subst w2; rewrite open_eq; [done | by rewrite Ho1]).
  clearbody w2. subst w2.
  assert (Ho' : is_Some (objs w1 !! h')) by by rewrite Ho1.
  assert (Hlog1 : log_of w1 (KStr s) = Some old)
    by (unfold log_of in *; by rewrite Hs1, Hd1).
  split; [rewrite opened_store_key by done; by rewrite decide_True|].
  split; [apply opened_store_ids; by rewrite Hi1|].
  split; [rewrite opened_log by done; by rewrite Hlog1|].
  rewrite opened_db by done. rewrite decide_True by done.
  destruct (c_bound _ Hc _ _ Hk) as (_ & _ & r & Hr & ->).
  unfold log_ref. by rewrite Hs1, Hr.
Qed.



End further.

(** ** Logs and counters are independent *)

#[global] Instance fixes_preorder {A} (f : World → A) : PreOrder (fixes f).
Proof.
  split; [by intros w|]. intros w1 w2 w3 H12 H23. unfold fixes in *. congruence.
Qed.

Section decoupled.
Context `{RT : Runtime} {A : Type} (f : World → A).

Lemma fixes_uuid :
  (∀ g w, f (with_drawn g w) = f w) → preserves (fixes f) uuid_uuid4.
Proof. intros Hf w. apply Hf. Qed.

Lemma fixes_write h text :
  (∀ g w, f (with_sent g w) = f w) → preserves (fixes f) (write_message h text).
Proof.
  intros Hf. unfold write_message.
  apply preserves_bind; [tc_solve | pres | intros o].
  destruct (ws_connection o); [|pres].
  apply preserves_modify. intros w. apply Hf.
Qed.

Lemma fixes_broadcast self message :
  (∀ g w, f (with_sent g w) = f w) →
  preserves (fixes f) (broadcast self message).
Proof.
  intros Hf. unfold broadcast.
  apply preserves_bind; [tc_solve | pres | intros k].
  apply preserves_bind; [tc_solve | pres | intros l].
  apply preserves_for_each; [tc_solve|]. intros h.
  case_decide; [pres | by apply fixes_write].
Qed.

Lemma fixes_create_store_id self :
  (∀ g w, f (with_store_ids g w) = f w) →
  preserves (fixes f) (create_store_id self).
Proof.
  intros Hf. unfold create_store_id.
  apply preserves_bind; [tc_solve | pres | intros k].
  apply preserves_bind; [tc_solve | pres | intros c].
  apply preserves_bind; [tc_solve | | intros _; pres].
  apply preserves_modify. intros w. apply Hf.
Qed.

Lemma fixes_add_transactions r transactions :
  (∀ g w, f (with_dbs g w) = f w) →
  preserves (fixes f) (db_add_transactions r transactions).
Proof.
  intros Hf. unfold db_add_transactions.
  apply preserves_bind; [tc_solve | pres | intros d].
  apply preserves_bind; [tc_solve | pres | intros ts].
  apply preserves_modify. intros w. apply Hf.
Qed.

End decoupled.

Lemma py_eq_str_true j s : py_eq_str j s = true → j = JStr s.
Proof.
  destruct j; simpl; try done. by intros ->%bool_decide_eq_true.
Qed.

Section requests.
Context `{RT : Runtime}.

Implicit Types (w : World) (env content : gmap string json).

Hint Resolve fixes_uuid fixes_write fixes_broadcast fixes_create_store_id
  fixes_add_transactions : pres.
Hint Extern 1 (_ = _) => reflexivity : pres.

Lemma fixes_builders {A} (f : World → A) parent_id :
  (∀ g w, f (with_drawn g w) = f w) →
  (∀ store_id, preserves (fixes f) (create_storeid_reply parent_id store_id))
  ∧ (∀ ts, preserves (fixes f) (create_transactions_ack parent_id ts))
  ∧ (∀ ts, preserves (fixes f) (create_history_reply parent_id ts))
  ∧ (∀ ts, preserves (fixes f) (create_fetch_reply parent_id ts)).
Proof.
  intros Hf. pose proof (fixes_uuid f Hf).
  repeat split; intros ?;
    [unfold create_storeid_reply | unfold create_transactions_ack
    | unfold create_history_reply | unfold create_fetch_reply]; pres.
Qed.

(** X18: logs and counters are touched by one request type each.  A
    message whose type is not [transaction-broadcast] leaves every log
    as it was, and a message whose type is not [storeid-request] leaves
    every counter as it was; a [history-request] or a
    [fetch-transaction-request] changes neither. *)
Theorem requests_touch_their_own_store self message env w :
  json_loads message = Some (JObj env) →
  let w' := (on_message self message w).2 in
  (env_type env ≠ JStr "transaction-broadcast" → dbs w' = dbs w)
  ∧ (env_type env ≠ JStr "storeid-request" → store_ids w' = store_ids w).
Proof.
  intros Hl w'. subst w'. unfold on_message.
  rewrite bind_unfold, Hl. cbn [from_opt mret M_ret].
  do 2 (rewrite bind_unfold; cbn [py_pop mret M_ret]).
  rewrite ?env_id_pop. fold (env_type env).
  destruct (fixes_builders dbs (env_id env)) as (Hb1 & Hb2 & Hb3 & Hb4); [done|].
  destruct (fixes_builders store_ids (env_id env)) as (Hi1 & Hi2 & Hi3 & Hi4);
    [done|].
  split; intros Hne.
  - destruct (py_eq_str (env_type env) "transaction-broadcast") eqn:E1;
      [by apply py_eq_str_true in E1|].
    match goal with
    | |- dbs (?m w).2 = dbs w =>
        assert (preserves (fixes dbs) m) as Hp; [|apply Hp]
    end.
    pres.
  - destruct (py_eq_str (env_type env) "transaction-broadcast") eqn:E1.
    + match goal with
      | |- store_ids (?m w).2 = store_ids w =>
          assert (preserves (fixes store_ids) m) as Hp; [|apply Hp]
      end.
      pres.
    + destruct (py_eq_str (env_type env) "storeid-request") eqn:E2;
        [by apply py_eq_str_true in E2|].
      match goal with
      | |- store_ids (?m w).2 = store_ids w =>
          assert (preserves (fixes store_ids) m) as Hp; [|apply Hp]
      end.
      pres.
Qed.

(** X19: a request that arrives on a handler that was built but
    never opened, whose [db] is still [None] and whose [store_key] is
    not set, raises [AttributeError] and changes nothing, whichever of
    the four request types it is. *)
Theorem request_before_open_raises self message env rt reply_t w o :
  objs w !! self = Some o → store_key o = None → db o = None →
  json_loads message = Some (JObj env) →
  env !! "msgType" = Some (JStr rt) →
  reply_type rt = Some reply_t → well_formed rt env = true →
  on_message self message w = (Raise AttributeError, w).
Proof.
  intros Ho Hk Hd Hl Ht%env_type_eq Hrt Hwf.
  assert (Hu : store_key_of w self = None)
    by (unfold store_key_of; by rewrite Ho).
  unfold reply_type in Hrt.
  destruct (decide (rt = "transaction-broadcast")) as [->|?];
    [|destruct (decide (rt = "storeid-request")) as [->|?];
      [|destruct (decide (rt = "history-request")) as [->|?];
        [|destruct (decide (rt = "fetch-transaction-request")) as [->|?];
          [|done]]]];
    injection Hrt as <-; unfold well_formed in Hwf; simpl in Hwf;
    into_branch env Hl Ht; simpl.
  - destruct (env !! "content") as [[| | | | | |content]|] eqn:Hco; try done.
    rewrite bind_unfold. cbn [py_pop mret M_ret]. rewrite content_pop, Hco. simpl.
    rewrite bind_unfold. cbn [py_pop mret M_ret].
    by rewrite (bind_ok _ _ _ _ _ (self_db_eq _ _ _ Ho)), Hd.
  - unfold create_store_id.
    by rewrite !bind_unfold, (self_store_key_unset _ _ Hu).
  - by rewrite (bind_ok _ _ _ _ _ (self_db_eq _ _ _ Ho)), Hd.
  - destruct (env !! "content") as [[| | | | | |content]|] eqn:Hco; try done.
    rewrite bind_unfold. cbn [py_pop mret M_ret]. rewrite content_pop, Hco. simpl.
    rewrite bind_unfold. cbn [py_pop mret M_ret].
    by rewrite (bind_ok _ _ _ _ _ (self_db_eq _ _ _ Ho)), Hd.
Qed.

End requests.


(** ** The further properties at work on the sample worlds *)

Section more_examples.
#[local] Existing Instance sample.

Ltac compute_it := vm_compute; reflexivity.

Ltac each_peer Hp :=
  clear - Hp;
  repeat (apply elem_of_cons in Hp as [->|Hp]; [compute_it|]);
  by apply elem_of_nil in Hp.

Lemma newcomer_consistent : consistent newcomer.
Proof. unfold newcomer. apply consistent_run, consistent_boot. Qed.

Lemma busy_consistent : consistent busy.
Proof. unfold busy. apply consistent_run, two_keys_consistent. Qed.

(** Sessions 0 and 1 are both on [doc1]. *)
Lemma same_key_same_log_witness :
  db_of two_keys 0 = db_of two_keys 1 ↔ KStr "doc1" = KStr "doc1".
Proof.
  unfold two_keys.
  apply (same_key_same_log
           [Connect; Connect; Connect;
            Open 0 (Some "doc1"); Open 1 (Some "doc1"); Open 2 (Some "doc2")]
           0 1); compute_it.
Defined.

(** Session 0 broadcasts on [doc1]; session 2 is on [doc2]. *)
Lemma wire_stays_within_key_witness :
  ∃ out,
    sent (on_message 0 "m2" two_keys).2 = sent two_keys ++ out
    ∧ ∀ m, (2%nat, m) ∉ out.
Proof.
  apply (wire_stays_within_key 0 "m2" two_keys 2 (KStr "doc2"));
    [apply two_keys_consistent | compute_it |].
  intros H. vm_compute in H. discriminate H.
Defined.

(** Session 1 closes; session 0 then broadcasts. *)
Lemma closed_session_gets_nothing_witness :
  (on_close 1 two_keys).1 = Ok tt
  ∧ ∃ out,
      sent (on_message 0 "m2" (on_close 1 two_keys).2).2
      = sent (on_close 1 two_keys).2 ++ out
      ∧ ∀ m, (1%nat, m) ∉ out.
Proof.
  apply (closed_session_gets_nothing 1 0 "m2" two_keys (KStr "doc1")
           [0; 1]%nat);
    [apply two_keys_consistent | compute_it | compute_it | | done].
  apply (bool_decide_unpack _). by vm_compute.
Defined.

(** Two requests on [doc2] leave the counter of [doc1] alone. *)
Lemma counter_isolation_witness :
  store_ids (run (deliveries [(2%nat, "m1"); (2%nat, "m1")]) two_keys)
    !! KStr "doc1"
  = store_ids two_keys !! KStr "doc1".
Proof.
  apply (counter_isolation [(2%nat, "m1"); (2%nat, "m1")] two_keys
           (KStr "doc1")).
  repeat (apply Forall_cons_2;
          [intros H; vm_compute in H; discriminate H|]).
  apply Forall_nil_2.
Defined.

(** Session 0 asks on [doc1]; handler 3 opens under [doc3], a key
    with no counter, and asks: it is answered 1. *)
Lemma store_ids_start_at_one_witness :
  (∃ store_id,
     1 ≤ store_id
     ∧ on_message 0 "m1" newcomer
       = (Ok tt,
          with_sent (.++ [(0%nat, storeid_reply_of (drawn newcomer) store_id
                                    "m1")])
            (with_drawn S
               (with_store_ids (<[KStr "doc1" := store_id]>) newcomer))))
  ∧ on_message 3 "m1" (open 3 (Some "doc3") newcomer).2
    = (Ok tt,
       with_sent (.++ [(3%nat,
                        storeid_reply_of
                          (drawn (open 3 (Some "doc3") newcomer).2) 1 "m1")])
         (with_drawn S
            (with_store_ids (<[KStr "doc3" := 1]>)
               (open 3 (Some "doc3") newcomer).2))).
Proof.
  unfold newcomer.
  destruct (store_ids_start_at_one
              [Connect; Connect; Connect;
               Open 0 (Some "doc1"); Open 1 (Some "doc1");
               Open 2 (Some "doc2"); Connect]
              "m1" (decoded "m1")) as (_ & Hask & Hfirst);
    [compute_it | compute_it |].
  split.
  - apply (Hask 0%nat (KStr "doc1")); compute_it.
  - apply (Hfirst 3%nat "doc3"); [eexists; compute_it | compute_it..].
Defined.

(** Session 1 of [one_down] cannot be written to: its request takes
    id 1 and gets no reply. *)
Lemma store_id_lost_on_closed_connection_witness :
  on_message 1 "m1" one_down
  = (Raise WebSocketClosedError,
     with_drawn S (with_store_ids (<[KStr "doc1" := 1 + 0]>) one_down)).
Proof.
  apply (store_id_lost_on_closed_connection 1 "m1" (decoded "m1") one_down
           (KStr "doc1") 0); compute_it.
Defined.

(** Handler 3 opens under [doc1] and gets the next broadcast of
    session 0, after session 1. *)
Lemma joiner_receives_broadcast_witness :
  sent (on_message 0 "m2" (open 3 (Some "doc1") newcomer).2).2
  = sent newcomer
    ++ (0%nat, ack_of (decoded "m2") [JStr "tx1"; JStr "tx2"]
                 (open 3 (Some "doc1") newcomer).2)
       :: to_peers "m2" (peers 0 [0; 1]%nat ++ [3%nat]).
Proof.
  destruct (joiner_receives_broadcast 3 "doc1" 0 "m2" (decoded "m2")
              (list_to_map [("transactions", JArr [tx1; tx2])])
              [tx1; tx2] [JStr "tx1"; JStr "tx2"] newcomer [0; 1]%nat)
    as (_ & _ & Hsent);
    [apply newcomer_consistent | by eexists
    | compute_it | compute_it | compute_it | compute_it | compute_it
    | intros p Hp _; each_peer Hp
    | compute_it | compute_it | compute_it | compute_it | compute_it
    | exact Hsent].
Defined.

(** Handler 3 opens under [doc1] after [tx1; tx2] were appended. *)
Lemma joiner_sees_history_witness :
  log_of (open 3 (Some "doc1") busy).2 (KStr "doc1")
  = Some (default [] (log_of busy (KStr "doc1")))
  ∧ default [] (log_of busy (KStr "doc1")) = [tx1; tx2].
Proof.
  destruct (joiner_sees_history 3 "doc1" "m3" (decoded "m3") busy)
    as [Hlog _]; [apply busy_consistent | by eexists | compute_it..|].
  split; [exact Hlog | compute_it].
Defined.

(** Handler 3 opens with no key. *)
Lemma keyless_session_is_alone_witness :
  handlers (open 3 None newcomer).2 !! KUuid (uuid4 (drawn newcomer))
  = Some [3%nat].
Proof.
  destruct (keyless_session_is_alone 3 "m2" newcomer) as (_ & Hl & _);
    [by eexists | compute_it | exact Hl].
Defined.

(** Both sessions of [doc1] close, then handler 3 opens under it. *)
Lemma same_log_forever_witness :
  db_of (run [Close 0; Close 1; Connect; Open 3 (Some "doc1")] two_keys) 3
  = Some 0%nat.
Proof.
  destruct (same_log_forever
              [Close 0; Close 1; Connect; Open 3 (Some "doc1")] two_keys
              (KStr "doc1") 0 3) as [_ Hdb];
    [apply two_keys_consistent | compute_it | compute_it | exact Hdb].
Defined.

(** Session 0 closes and handler 3 opens under [doc1]: the counter is
    still 1 and the log still holds [tx1; tx2]. *)
Lemma reconnect_keeps_state_witness :
  store_ids (open 3 (Some "doc1") (on_close 0 busy).2).2 !! KStr "doc1"
  = Some 1
  ∧ log_of (open 3 (Some "doc1") (on_close 0 busy).2).2 (KStr "doc1")
    = Some [tx1; tx2].
Proof.
  destruct (reconnect_keeps_state 0 3 "doc1" busy 1 [tx1; tx2])
    as (_ & Hc & Hlog & _);
    [apply busy_consistent | compute_it.. | by eexists | compute_it |].
  by split.
Defined.

(** A [history-request] changes no log and no counter. *)
Lemma requests_touch_their_own_store_witness :
  dbs (on_message 1 "m3" busy).2 = dbs busy
  ∧ store_ids (on_message 1 "m3" busy).2 = store_ids busy.
Proof.
  destruct (requests_touch_their_own_store 1 "m3" (decoded "m3") busy)
    as [Hd Hi]; [compute_it|].
  split; [apply Hd | apply Hi]; intros H; vm_compute in H; discriminate H.
Defined.

(** A [transaction-broadcast] on handler 3, not opened yet. *)
Lemma request_before_open_raises_witness :
  on_message 3 "m2" newcomer = (Raise AttributeError, newcomer).
Proof.
  apply (request_before_open_raises 3 "m2" (decoded "m2")
           "transaction-broadcast" "transaction-ack" newcomer
           {| store_key := None; db := None; ws_connection := true |});
    compute_it.
Defined.

End more_examples.
